(** * Traindown session builder: a shallow embedding of [parser.go]

    The development follows the Go source function by function:
    - the value types [Performance], [Movement] and [Session] with their
      constructors [NewPerformance], [NewMovement], [NewSession];
    - the helpers [intValue] and [floatValue];
    - the token loop of [parse], one [step] per token, and the two flushes
      that follow the loop;
    - the entry points [ParseByte] and [ParseString].

    Go library functions the parser calls are embedded by what they
    compute ([Split], [Trim], [Atoi]); the collaborators that live outside
    this file (the date interpreter, the float reader, the wall clock and
    the lexer) are Section variables.  A run-time panic of the Go program
    is an explicit [Panic] result. *)

From Stdlib Require Import ZArith Strings.Ascii Strings.String Strings.Byte Floats.SpecFloat.
From stdpp Require Import base option list gmap strings.

Local Open Scope string_scope.
Local Open Scope Z_scope.
Local Open Scope list_scope.

(** ** Go strings and the library functions used on them *)

(** [strings.Split(s, sep)] for a separator of one byte: the pieces of [s]
    between the occurrences of [sep]; a string without [sep] gives the
    one-element slice holding [s] itself. *)
Fixpoint Split (s : string) (sep : ascii) : list string :=
  match s with
  | EmptyString => [EmptyString]
  | String c rest =>
      if Ascii.eqb c sep then EmptyString :: Split rest sep
      else match Split rest sep with
           | piece :: pieces => String c piece :: pieces
           | [] => [String c EmptyString]
           end
  end.

(** [strings.TrimLeft(s, cutset)] for a cutset of one byte. *)
Fixpoint TrimLeft (s : string) (cut : ascii) : string :=
  match s with
  | EmptyString => EmptyString
  | String c rest => if Ascii.eqb c cut then TrimLeft rest cut else s
  end.

(** [strings.TrimRight(s, cutset)] for a cutset of one byte. *)
Fixpoint TrimRight (s : string) (cut : ascii) : string :=
  match s with
  | EmptyString => EmptyString
  | String c rest =>
      match TrimRight rest cut with
      | EmptyString => if Ascii.eqb c cut then EmptyString else String c EmptyString
      | kept => String c kept
      end
  end.

(** [strings.Trim(s, cutset)] for a cutset of one byte: every leading and
    trailing occurrence of that byte is removed. *)
Definition Trim (s : string) (cut : ascii) : string :=
  TrimRight (TrimLeft s cut) cut.

(** The Go literals [":"] and [" "] of [parse]. *)
Definition colon : ascii := ":"%char.
Definition space : ascii := " "%char.

(** [s] contains the byte [c]. *)
Fixpoint contains (s : string) (c : ascii) : bool :=
  match s with
  | EmptyString => false
  | String d rest => Ascii.eqb d c || contains rest c
  end.

(** The size in bits of Go's [int] (64-bit targets). *)
Definition intSize : Z := 64.

Definition digit (c : ascii) : option Z :=
  let n := Z.of_N (N_of_ascii c) in
  if (48 <=? n) && (n <=? 57) then Some (n - 48) else None.

Fixpoint digits (s : string) (acc : Z) : option Z :=
  match s with
  | EmptyString => Some acc
  | String c rest =>
      match digit c with
      | Some d => digits rest (acc * 10 + d)
      | None => None
      end
  end.

(** [strconv.Atoi]: an optional sign followed by one or more decimal
    digits, the value being in the range of [int]; [None] stands for a
    non-nil error (syntax or range). *)
Definition Atoi (s : string) : option Z :=
  match s with
  | EmptyString => None
  | String c rest =>
      let neg := Ascii.eqb c "-"%char in
      let body := if neg || Ascii.eqb c "+"%char then rest else s in
      match body with
      | EmptyString => None
      | _ =>
          match digits body 0 with
          | Some n =>
              let v := if neg then - n else n in
              if (- 2 ^ (intSize - 1) <=? v) && (v <=? 2 ^ (intSize - 1) - 1)
              then Some v else None
          | None => None
          end
      end
  end.

(** ** Errors, panics and results *)

(** Go [error] values, kept by the format that built them rather than by
    their rendered text. *)
Inductive error : Type :=
  | External (msg : string)
      (* an error of a collaborator: lexer, date interpreter *)
  | FailedToParseDate (cause : error)
      (* fmt.Errorf("Failed to parse date: %q. Using today UTC", err) *)
  | FailedToParseValue (t v : string)
      (* fmt.Errorf("Failed to parse %q: %q", t, s) *)
  | FailedToParse (cause : error).
      (* fmt.Errorf("Failed to parse: %q", err) *)

(** Run-time panics of the Go program. *)
Inductive panic : Type :=
  | IndexOutOfRange (index len : nat).

Inductive result (A : Type) : Type :=
  | Ok (a : A)
  | Panic (e : panic).
Arguments Ok {A} a.
Arguments Panic {A} e.

(** Sequencing stops at the first panic; with these instances stdpp's
    [x ← r; k] notation reads like the Go statements it stands for. *)
#[global] Instance result_ret : MRet result := fun A a => Ok a.
#[global] Instance result_bind : MBind result := fun A B k r =>
  match r with
  | Ok a => k a
  | Panic e => Panic e
  end.

(** [xs[i]] on a slice: a panic when [i] is out of range. *)
Definition index {A : Type} (xs : list A) (i : nat) : result A :=
  match xs !! i with
  | Some x => Ok x
  | None => Panic (IndexOutOfRange i (length xs))
  end.

(** ** Data model *)

(** [float32]: an IEEE-754 value; [f32_zero] is the literal [0.0]. *)
Abbreviation float32 := spec_float (only parsing).
Definition f32_zero : float32 := S754_zero false.

(** Go's [x != 0.0] on a float: false on both zeros, true on NaN. *)
Definition f32_nonzero (x : float32) : bool := negb (SFeqb x f32_zero).

(** [time.Time], as the instant it denotes; [0] is the zero time. *)
Definition Time : Type := Z.

(** [type Metadata map[string]interface{}]; [parse] only ever stores
    strings in it. *)
Abbreviation Metadata := (gmap string string) (only parsing).

(** Modelled from the spec: the [Token] type of the lexer file, which is not
    part of the sources at hand; "an immutable value pairing a token kind
    with its raw textual payload", read through [tok.Name()] and
    [tok.Value()]. *)
Record Token : Type := { Name : string; Value : string }.

Module Performance.
Record t : Type := mk {
  Fails : Z;
  Load : float32;
  PercentOfMax : float32;
  Reps : Z;
  Sequence : Z;
  Sets : Z;
  Unit : string;
  Metadata : Metadata;
  Notes : list string
}.

Definition set_Fails (x : Z) (pf : t) : t :=
  mk x (Load pf) (PercentOfMax pf) (Reps pf) (Sequence pf) (Sets pf)
     (Unit pf) (Metadata pf) (Notes pf).
Definition set_Load (x : float32) (pf : t) : t :=
  mk (Fails pf) x (PercentOfMax pf) (Reps pf) (Sequence pf) (Sets pf)
     (Unit pf) (Metadata pf) (Notes pf).
Definition set_Reps (x : Z) (pf : t) : t :=
  mk (Fails pf) (Load pf) (PercentOfMax pf) x (Sequence pf) (Sets pf)
     (Unit pf) (Metadata pf) (Notes pf).
Definition set_Sets (x : Z) (pf : t) : t :=
  mk (Fails pf) (Load pf) (PercentOfMax pf) (Reps pf) (Sequence pf) x
     (Unit pf) (Metadata pf) (Notes pf).
Definition set_Metadata (x : gmap string string) (pf : t) : t :=
  mk (Fails pf) (Load pf) (PercentOfMax pf) (Reps pf) (Sequence pf) (Sets pf)
     (Unit pf) x (Notes pf).
Definition set_Notes (x : list string) (pf : t) : t :=
  mk (Fails pf) (Load pf) (PercentOfMax pf) (Reps pf) (Sequence pf) (Sets pf)
     (Unit pf) (Metadata pf) x.
End Performance.

Module Movement.
Record t : Type := mk {
  Name : string;
  Sequence : Z;
  SuperSet : bool;
  Performances : list Performance.t;
  Metadata : Metadata;
  Notes : list string
}.

Definition set_Name (x : string) (mv : t) : t :=
  mk x (Sequence mv) (SuperSet mv) (Performances mv) (Metadata mv) (Notes mv).
Definition set_SuperSet (x : bool) (mv : t) : t :=
  mk (Name mv) (Sequence mv) x (Performances mv) (Metadata mv) (Notes mv).
Definition set_Performances (x : list Performance.t) (mv : t) : t :=
  mk (Name mv) (Sequence mv) (SuperSet mv) x (Metadata mv) (Notes mv).
Definition set_Metadata (x : gmap string string) (mv : t) : t :=
  mk (Name mv) (Sequence mv) (SuperSet mv) (Performances mv) x (Notes mv).
Definition set_Notes (x : list string) (mv : t) : t :=
  mk (Name mv) (Sequence mv) (SuperSet mv) (Performances mv) (Metadata mv) x.
End Movement.

Module Session.
Record t : Type := mk {
  Date : Time;
  Errors : list error;
  Movements : list Movement.t;
  Metadata : Metadata;
  Notes : list string
}.

Definition set_Date (x : Time) (ss : t) : t :=
  mk x (Errors ss) (Movements ss) (Metadata ss) (Notes ss).
Definition set_Errors (x : list error) (ss : t) : t :=
  mk (Date ss) x (Movements ss) (Metadata ss) (Notes ss).
Definition set_Movements (x : list Movement.t) (ss : t) : t :=
  mk (Date ss) (Errors ss) x (Metadata ss) (Notes ss).
Definition set_Metadata (x : gmap string string) (ss : t) : t :=
  mk (Date ss) (Errors ss) (Movements ss) x (Notes ss).
Definition set_Notes (x : list string) (ss : t) : t :=
  mk (Date ss) (Errors ss) (Movements ss) (Metadata ss) x.

(** [Session{}], the zero value returned next to a function-level error
    (nil maps and slices are not told apart from empty ones). *)
Definition zero : t := mk 0 [] [] ∅ [].
End Session.

Definition NewPerformance : Performance.t :=
  Performance.mk 0 f32_zero f32_zero 1 0 1 "" ∅ [].

Definition NewMovement : Movement.t :=
  Movement.mk "" 0 false [] ∅ [].

Definition NewSession : Session.t :=
  Session.mk 0 [] [] ∅ [].

(** ** The builder *)

(** The local variables of [parse] that live across loop iterations.
    [nowCalls] counts the readings of the wall clock taken so far; it has
    no counterpart in the source and only selects the next reading. *)
Record locals : Type := Locals {
  m : Movement.t;
  p : Performance.t;
  s : Session.t;
  inSession : bool;
  inPerformance : bool;
  nowCalls : nat
}.

Definition set_m (x : Movement.t) (st : locals) : locals :=
  Locals x (p st) (s st) (inSession st) (inPerformance st) (nowCalls st).
Definition set_p (x : Performance.t) (st : locals) : locals :=
  Locals (m st) x (s st) (inSession st) (inPerformance st) (nowCalls st).
Definition set_s (x : Session.t) (st : locals) : locals :=
  Locals (m st) (p st) x (inSession st) (inPerformance st) (nowCalls st).
Definition set_inSession (x : bool) (st : locals) : locals :=
  Locals (m st) (p st) (s st) x (inPerformance st) (nowCalls st).
Definition set_inPerformance (x : bool) (st : locals) : locals :=
  Locals (m st) (p st) (s st) (inSession st) x (nowCalls st).
Definition set_nowCalls (x : nat) (st : locals) : locals :=
  Locals (m st) (p st) (s st) (inSession st) (inPerformance st) x.

(** [parse], lines 152-157: the state on entry to the loop. *)
Definition init : locals :=
  Locals NewMovement NewPerformance NewSession true false 0%nat.

(** [s.Errors = append(s.Errors, err)]. *)
Definition record_error (err : error) (st : locals) : locals :=
  set_s (Session.set_Errors (Session.Errors (s st) ++ [err]) (s st)) st.

(** [m.Performances = append(m.Performances, p)]. *)
Definition append_performance (st : locals) : locals :=
  set_m (Movement.set_Performances
           (Movement.Performances (m st) ++ [p st]) (m st)) st.

(** [s.Movements = append(s.Movements, m)]. *)
Definition append_movement (st : locals) : locals :=
  set_s (Session.set_Movements
           (Session.Movements (s st) ++ [m st]) (s st)) st.

(** [intValue]: the integer and a nil error, or [0] and an error. *)
Definition intValue (v t : string) : Z * option error :=
  match Atoi v with
  | Some i => (i, None)
  | None => (0, Some (FailedToParseValue t v))
  end.

(** The body shared by the FAILS, REPS and SETS cases: call [intValue],
    record the error if there is one, then assign the integer. *)
Definition int_case (t : string) (assign : Z -> Performance.t -> Performance.t)
    (tok : Token) (st : locals) : locals :=
  let '(i, err) := intValue (Value tok) t in
  let st := match err with
            | Some e => record_error e st
            | None => st
            end in
  set_p (assign i (p st)) st.

(** The three-way branch of the METADATA case, lines 196-202. *)
Definition store_metadata (key value : string) (st : locals) : locals :=
  if inSession st then
    set_s (Session.set_Metadata (<[key := value]> (Session.Metadata (s st))) (s st)) st
  else if inPerformance st then
    set_p (Performance.set_Metadata
             (<[key := value]> (Performance.Metadata (p st))) (p st)) st
  else
    set_m (Movement.set_Metadata
             (<[key := value]> (Movement.Metadata (m st))) (m st)) st.

(** The three-way branch of the NOTE case, lines 223-229. *)
Definition store_note (v : string) (st : locals) : locals :=
  if inSession st then
    set_s (Session.set_Notes (Session.Notes (s st) ++ [v]) (s st)) st
  else if inPerformance st then
    set_p (Performance.set_Notes (Performance.Notes (p st) ++ [v]) (p st)) st
  else
    set_m (Movement.set_Notes (Movement.Notes (m st) ++ [v]) (m st)) st.

(** The METADATA case up to the branch, lines 192-194: split at every
    colon, index the first two pieces, trim spaces off both. *)
Definition metadata_pair (v : string) : result (string * string) :=
  let pair := Split v colon in
  k ← index pair 0;
  let key := Trim k space in
  w ← index pair 1;
  let value := Trim w space in
  Ok (key, value).

(** The MOVEMENT and MOVEMENT_SS cases, lines 204-221. *)
Definition movement_case (tok : Token) (st : locals) : locals :=
  let st := set_inSession false st in
  let st := if inPerformance st
            then set_p NewPerformance (append_performance st)
            else st in
  let st := set_inPerformance false st in
  let st := if negb (String.eqb (Movement.Name (m st)) "")
            then set_m NewMovement (append_movement st)
            else st in
  let st := set_m (Movement.set_Name (Value tok) (m st)) st in
  if String.eqb (Name tok) "MOVEMENT_SS"
  then set_m (Movement.set_SuperSet true (m st)) st
  else st.

(** ** A concrete set of collaborators

    To run the builder on concrete token lists the three collaborators
    of [Section Builder] below need values.  The float reader understands
    unsigned decimal integers below [2^24] only (each is a [float32]
    exactly, and [strconv.ParseFloat] reads it to that value); the date
    interpreter understands nothing, so every DATE token takes the
    fallback path; the clock ticks once per reading. *)
Module Demo.

Definition ParseFloat32 (v : string) : option float32 :=
  match v with
  | EmptyString => None
  | _ =>
      match digits v 0 with
      | Some n => if n <? 2 ^ 24 then Some (binary_normalize 24 128 n 0 false) else None
      | None => None
      end
  end.

Definition ParseAny (v : string) : Time + error :=
  inr (External "could not find a date format").

Definition Now (k : nat) : Time := 1000 + Z.of_nat k.

Definition tok (name value : string) : Token := {| Name := name; Value := value |}.

(** A log of one movement: a note, a metadata line, two sets. *)
Definition squat_log : list Token :=
  [ tok "NOTE" "warm-up done";
    tok "METADATA" "gym: home";
    tok "MOVEMENT" "Squat";
    tok "NOTE" "felt heavy";
    tok "LOAD" "100";
    tok "REPS" "5";
    tok "METADATA" "rpe: 8";
    tok "LOAD" "110";
    tok "REPS" "3" ].

(** A log with a superset, rejected values, a token of an unknown kind,
    and a last Performance of load zero. *)
Definition mixed_log : list Token :=
  [ tok "DATE" "soon";
    tok "NOTE" "deload week";
    tok "METADATA" "gym: home";
    tok "METADATA" "gym: club";
    tok "TEMPO" "3010";
    tok "MOVEMENT_SS" "Squat";
    tok "NOTE" "belt";
    tok "METADATA" "bar: safety";
    tok "LOAD" "100";
    tok "REPS" "five";
    tok "SETS" "3";
    tok "NOTE" "slow";
    tok "LOAD" "heavy";
    tok "DATE" "later";
    tok "MOVEMENT" "Bench";
    tok "LOAD" "80";
    tok "LOAD" "0" ].

End Demo.

Section Builder.

(** [dateparse.ParseAny]: the timestamp, or the interpreter's error. *)
Variable ParseAny : string -> Time + error.

(** [strconv.ParseFloat(s, 32)] converted to [float32]: the value when
    the error is nil, [None] otherwise. *)
Variable ParseFloat32 : string -> option float32.

(** [time.Now()]: the reading taken by the [k]-th call. *)
Variable Now : nat -> Time.

(** [floatValue]: the float and a nil error, or [0.0] and an error. *)
Definition floatValue (v t : string) : float32 * option error :=
  match ParseFloat32 v with
  | Some f => (f, None)
  | None => (f32_zero, Some (FailedToParseValue t v))
  end.

(** The DATE case, lines 162-169. *)
Definition date_case (tok : Token) (st : locals) : locals :=
  match ParseAny (Value tok) with
  | inr err =>
      let st := record_error (FailedToParseDate err) st in
      set_nowCalls (S (nowCalls st))
        (set_s (Session.set_Date (Now (nowCalls st)) (s st)) st)
  | inl d => set_s (Session.set_Date d (s st)) st
  end.

(** The LOAD case, lines 179-190. *)
Definition load_case (tok : Token) (st : locals) : locals :=
  let st := if inPerformance st
            then set_p NewPerformance (append_performance st)
            else st in
  let '(f, err) := floatValue (Value tok) "load" in
  let st := match err with
            | Some e => record_error e st
            | None => st
            end in
  set_inPerformance true (set_p (Performance.set_Load f (p st)) st).

(** One iteration of the loop of [parse]: the [switch] on [tok.Name()].
    A name that matches no case leaves the state as it is. *)
Definition step (st : locals) (tok : Token) : result locals :=
  let name := Name tok in
  if String.eqb name "DATE" then Ok (date_case tok st)
  else if String.eqb name "FAILS" then
    Ok (int_case "fails" Performance.set_Fails tok st)
  else if String.eqb name "LOAD" then Ok (load_case tok st)
  else if String.eqb name "METADATA" then
    '(key, value) ← metadata_pair (Value tok);
    Ok (store_metadata key value st)
  else if String.eqb name "MOVEMENT" || String.eqb name "MOVEMENT_SS" then
    Ok (movement_case tok st)
  else if String.eqb name "NOTE" then Ok (store_note (Value tok) st)
  else if String.eqb name "REPS" then
    Ok (int_case "reps" Performance.set_Reps tok st)
  else if String.eqb name "SETS" then
    Ok (int_case "sets" Performance.set_Sets tok st)
  else Ok st.

(** [for _, tok := range tokens]. *)
Fixpoint loop (tokens : list Token) (st : locals) : result locals :=
  match tokens with
  | [] => Ok st
  | tok :: rest => st' ← step st tok; loop rest st'
  end.

(** Lines 249-251: the trailing Performance joins the current Movement
    when its load differs from [0.0]. *)
Definition flush_performance (st : locals) : locals :=
  if f32_nonzero (Performance.Load (p st)) then append_performance st else st.

(** Lines 253-255: the current Movement joins the Session when it has a
    name. *)
Definition flush_movement (st : locals) : locals :=
  if negb (String.eqb (Movement.Name (m st)) "") then append_movement st else st.

(** What follows the loop: both flushes, then [return s, nil]. *)
Definition finish (st : locals) : Session.t * option error :=
  (s (flush_movement (flush_performance st)), None).

(** [parse]. *)
Definition parse (tokens : list Token) : result (Session.t * option error) :=
  st ← loop tokens init;
  Ok (finish st).

(** ** Entry points *)

(** Modelled from the spec: the scanner of the lexer file, which is not
    part of the sources at hand.  "Construction of a Scanner instance must
    itself be able to fail"; "scan(text) -> (tokens, error)", all or
    nothing and deterministic. *)
Variable Lexer : Type.
Variable NewLexer : Lexer + error.
Variable Scan : Lexer -> list byte -> list Token + error.

(** [ParseByte]. *)
Definition ParseByte (txt : list byte) : result (Session.t * option error) :=
  match NewLexer with
  | inr err => Ok (Session.zero, Some err)
  | inl lexer =>
      match Scan lexer txt with
      | inr err => Ok (Session.zero, Some (FailedToParse err))
      | inl tokens =>
          '(ss, err) ← parse tokens;
          match err with
          | Some e => Ok (Session.zero, Some (FailedToParse e))
          | None => Ok (ss, None)
          end
      end
  end.

(** [ParseString]; [[]byte(txt)] is the byte sequence of the string. *)
Definition ParseString (txt : string) : result (Session.t * option error) :=
  match NewLexer with
  | inr err => Ok (Session.zero, Some err)
  | inl lexer =>
      match Scan lexer (list_byte_of_string txt) with
      | inr err => Ok (Session.zero, Some (FailedToParse err))
      | inl tokens =>
          '(ss, err) ← parse tokens;
          match err with
          | Some e => Ok (Session.zero, Some (FailedToParse e))
          | None => Ok (ss, None)
          end
      end
  end.



(** ** Vocabulary of the statements *)

(** A token the loop can process: any token but a METADATA token whose
    value has no colon. *)
Definition processable (tok : Token) : bool :=
  negb (String.eqb (Name tok) "METADATA") || contains (Value tok) colon.

(** A MOVEMENT or MOVEMENT_SS token. *)
Definition is_movement (tok : Token) : bool :=
  String.eqb (Name tok) "MOVEMENT" || String.eqb (Name tok) "MOVEMENT_SS".

(** The three scopes a METADATA or NOTE payload can land in. *)
Inductive scope : Type := SessionScope | PerformanceScope | MovementScope.

(** The scope named by the two flags, in the words of the specification:
    the Session while [inSession] is true, otherwise the current
    Performance while [inPerformance] is true, otherwise the current
    Movement. *)
Definition scope_of_flags (st : locals) : scope :=
  if inSession st then SessionScope
  else if inPerformance st then PerformanceScope
  else MovementScope.

(** The notes and the metadata held by a scope in a given state. *)
Definition notes_of (sc : scope) (st : locals) : list string :=
  match sc with
  | SessionScope => Session.Notes (s st)
  | PerformanceScope => Performance.Notes (p st)
  | MovementScope => Movement.Notes (m st)
  end.

Definition metadata_of (sc : scope) (st : locals) : gmap string string :=
  match sc with
  | SessionScope => Session.Metadata (s st)
  | PerformanceScope => Performance.Metadata (p st)
  | MovementScope => Movement.Metadata (m st)
  end.

(** A Performance whose [Sequence], [Unit] and [PercentOfMax] are as
    [NewPerformance] made them. *)
Definition performance_untouched (pf : Performance.t) : Prop :=
  Performance.Sequence pf = 0 /\
  Performance.Unit pf = "" /\
  Performance.PercentOfMax pf = f32_zero.

(** A Movement whose [Sequence] is as [NewMovement] made it, holding
    untouched Performances only. *)
Definition movement_untouched (mv : Movement.t) : Prop :=
  Movement.Sequence mv = 0 /\
  Forall performance_untouched (Movement.Performances mv).

(** The state an integer case leaves behind when [Atoi] fails: the error
    is recorded and the field is assigned the [0] that [intValue]
    returned. *)
Definition after_failed_int (t : string)
    (assign : Z -> Performance.t -> Performance.t) (tok : Token) (st : locals) : locals :=
  set_p (assign 0 (p st)) (record_error (FailedToParseValue t (Value tok)) st).

(** The loop invariant of the fields no token writes: it holds of the
    current Performance, the current Movement and the Movements already in
    the Session. *)
Definition untouched (st : locals) : Prop :=
  performance_untouched (p st) /\
  movement_untouched (m st) /\
  Forall movement_untouched (Session.Movements (s st)).

(** *** Token lists read as histories

    The statements about whole runs speak of the token list itself: which
    tokens are of which kind, what each contributes, and what a prefix of
    the list leaves open. *)

Definition is_date (tok : Token) : bool := String.eqb (Name tok) "DATE".
Definition is_load (tok : Token) : bool := String.eqb (Name tok) "LOAD".
Definition is_note (tok : Token) : bool := String.eqb (Name tok) "NOTE".
Definition is_metadata (tok : Token) : bool := String.eqb (Name tok) "METADATA".

(** The names the [switch] of [parse] has a case for. *)
Definition case_names : list string :=
  ["DATE"; "FAILS"; "LOAD"; "METADATA"; "MOVEMENT"; "MOVEMENT_SS"; "NOTE";
   "REPS"; "SETS"].

Definition recognised (tok : Token) : bool :=
  existsb (String.eqb (Name tok)) case_names.

(** The error a token's value draws from the helper its case calls, if
    any: the date interpreter for DATE, [intValue] for FAILS, REPS and
    SETS, [floatValue] for LOAD. *)
Definition diagnostic (tok : Token) : option error :=
  if is_date tok then
    match ParseAny (Value tok) with
    | inr err => Some (FailedToParseDate err)
    | inl _ => None
    end
  else if String.eqb (Name tok) "FAILS" then snd (intValue (Value tok) "fails")
  else if is_load tok then snd (floatValue (Value tok) "load")
  else if String.eqb (Name tok) "REPS" then snd (intValue (Value tok) "reps")
  else if String.eqb (Name tok) "SETS" then snd (intValue (Value tok) "sets")
  else None.

(** A DATE token the date interpreter rejects. *)
Definition date_fails (tok : Token) : bool :=
  is_date tok && match ParseAny (Value tok) with inr _ => true | inl _ => false end.

(** The load a LOAD token stores, and the loads of a token list in token
    order. *)
Definition load_of (tok : Token) : float32 := fst (floatValue (Value tok) "load").

Definition loads (tokens : list Token) : list float32 :=
  map load_of (List.filter is_load tokens).

(** The loads held by a Movement and by a Session, in list order. *)
Definition movement_loads (mv : Movement.t) : list float32 :=
  map Performance.Load (Movement.Performances mv).

Definition session_loads (ss : Session.t) : list float32 :=
  flat_map movement_loads (Session.Movements ss).

(** The load of the LOAD token that no later LOAD or movement token has
    closed yet, if there is one. *)
Definition open_load (tokens : list Token) : option float32 :=
  foldl (fun acc tok =>
           if is_movement tok then None
           else if is_load tok then Some (load_of tok)
           else acc) None tokens.

(** The value of the last movement token, the empty string if there is
    none. *)
Definition last_movement_name (tokens : list Token) : string :=
  foldl (fun acc tok => if is_movement tok then Value tok else acc) "" tokens.

(** The tokens before the first movement token. *)
Fixpoint session_part (tokens : list Token) : list Token :=
  match tokens with
  | [] => []
  | tok :: rest => if is_movement tok then [] else tok :: session_part rest
  end.

(** The key/value pair a METADATA token yields. *)
Definition pair_of (tok : Token) : option (string * string) :=
  if is_metadata tok then
    match metadata_pair (Value tok) with
    | Ok kv => Some kv
    | Panic _ => None
    end
  else None.

(** What the builder keeps of a movement token: its value as the name, and
    whether it is the superset kind. *)
Definition movement_entry (tok : Token) : string * bool :=
  (Value tok, String.eqb (Name tok) "MOVEMENT_SS").

Definition entry_of (mv : Movement.t) : string * bool :=
  (Movement.Name mv, Movement.SuperSet mv).

(** The non-empty values of the movement tokens, in token order. *)
Definition nonempty (v : string) : bool := negb (String.eqb v "").

Definition movement_names (tokens : list Token) : list string :=
  List.filter nonempty (map Value (List.filter is_movement tokens)).

(** Every movement token carries a name. *)
Definition movements_named (tokens : list Token) : bool :=
  forallb (fun tok => negb (is_movement tok) || nonempty (Value tok)) tokens.

(** The current Movement as the next flush would see it: present when it
    has a name. *)
Definition current_entry (st : locals) : list (string * bool) :=
  if nonempty (Movement.Name (m st)) then [entry_of (m st)] else [].

(** Inserting key/value pairs one after the other. *)
Definition insert_pair (acc : gmap string string) (kv : string * string)
    : gmap string string :=
  <[kv.1 := kv.2]> acc.

(** How the loads held by a state relate to the tokens seen so far: those
    flushed to the Session, then those on the current Movement, then the
    open Performance's, are the loads of the LOAD tokens in order; the open
    Performance is the one [open_load] names; a Performance that is not
    open carries no load; the current Movement is named by the last
    movement token. *)
Definition loads_follow (seen : list Token) (st : locals) : Prop :=
  session_loads (s st) ++ movement_loads (m st)
    ++ (if inPerformance st then [Performance.Load (p st)] else [])
  = loads seen /\
  open_load seen
  = (if inPerformance st then Some (Performance.Load (p st)) else None) /\
  (inPerformance st = false -> Performance.Load (p st) = f32_zero) /\
  Movement.Name (m st) = last_movement_name seen.

(** The loads [parse] keeps of a token list whose last movement token is
    named: all of them, but for the load of a still open Performance when
    it is zero. *)
Definition kept_loads (tokens : list Token) : list float32 :=
  match open_load tokens with
  | Some f => if f32_nonzero f then loads tokens else removelast (loads tokens)
  | None => loads tokens
  end.

(** A token that neither opens a Performance nor starts a Movement. *)
Definition quiet (tok : Token) : bool := negb (is_load tok) && negb (is_movement tok).

(** The value an integer field holds after the tokens of [body], starting
    from [start]: each token named [name] assigns what [intValue] returns
    for it, the last one wins. *)
Definition int_after (name label : string) (start : Z) (body : list Token) : Z :=
  foldl (fun acc tok =>
           if String.eqb (Name tok) name then fst (intValue (Value tok) label)
           else acc) start body.

(** The Performance a LOAD token writes its load to: a fresh one when a
    Performance is open (that one is flushed), the current one otherwise. *)
Definition load_target (st : locals) : Performance.t :=
  if inPerformance st then NewPerformance else p st.

(** A Performance that holds nothing a LOAD, NOTE or METADATA token could
    have given it. *)
Definition blank (pf : Performance.t) : Prop :=
  Performance.Load pf = f32_zero /\
  Performance.Notes pf = [] /\
  Performance.Metadata pf = ∅.

(** The successful steps, by the case of the [switch] that ran. *)
Inductive stepped (st : locals) (tok : Token) : locals -> Prop :=
  | stepped_date :
      Name tok = "DATE" -> stepped st tok (date_case tok st)
  | stepped_fails :
      Name tok = "FAILS" ->
      stepped st tok (int_case "fails" Performance.set_Fails tok st)
  | stepped_load :
      Name tok = "LOAD" -> stepped st tok (load_case tok st)
  | stepped_metadata (key value : string) :
      Name tok = "METADATA" -> metadata_pair (Value tok) = Ok (key, value) ->
      stepped st tok (store_metadata key value st)
  | stepped_movement :
      Name tok = "MOVEMENT" -> stepped st tok (movement_case tok st)
  | stepped_movement_ss :
      Name tok = "MOVEMENT_SS" -> stepped st tok (movement_case tok st)
  | stepped_note :
      Name tok = "NOTE" -> stepped st tok (store_note (Value tok) st)
  | stepped_reps :
      Name tok = "REPS" ->
      stepped st tok (int_case "reps" Performance.set_Reps tok st)
  | stepped_sets :
      Name tok = "SETS" ->
      stepped st tok (int_case "sets" Performance.set_Sets tok st)
  | stepped_other :
      recognised tok = false -> stepped st tok st.

(** What an integer token leaves as it was, read field by field: the
    flags, the current Movement, the Session but for its error list, and
    the current Performance but for its three integer fields. *)
Definition int_token_frame (st st' : locals) : Prop :=
  inSession st' = inSession st /\
  inPerformance st' = inPerformance st /\
  m st' = m st /\
  Session.Date (s st') = Session.Date (s st) /\
  Session.Movements (s st') = Session.Movements (s st) /\
  Session.Metadata (s st') = Session.Metadata (s st) /\
  Session.Notes (s st') = Session.Notes (s st) /\
  Performance.Load (p st') = Performance.Load (p st) /\
  Performance.PercentOfMax (p st') = Performance.PercentOfMax (p st) /\
  Performance.Sequence (p st') = Performance.Sequence (p st) /\
  Performance.Unit (p st') = Performance.Unit (p st) /\
  Performance.Metadata (p st') = Performance.Metadata (p st) /\
  Performance.Notes (p st') = Performance.Notes (p st).

(** The Performances a LOAD token finds on the current Movement once it
    has flushed the open Performance, if there is one. *)
Definition performances_before_load (st : locals) : list Performance.t :=
  Movement.Performances (m st) ++ (if inPerformance st then [p st] else []).

(** ** Facts about the library functions *)

Lemma Split_without_sep (v : string) (c : ascii) :
  contains v c = false -> Split v c = [v].
Proof.
  induction v as [|d rest IH]; simpl; [reflexivity|].
  destruct (Ascii.eqb d c); simpl; [discriminate|].
  intros Hrest. rewrite (IH Hrest). reflexivity.
Qed.

Lemma Split_at_first_sep (a rest : string) (c : ascii) :
  contains a c = false ->
  Split (a +:+ String c rest) c = a :: Split rest c.
Proof.
  induction a as [|d a IH]; simpl.
  - intros _. rewrite Ascii.eqb_refl. reflexivity.
  - destruct (Ascii.eqb d c); simpl; [discriminate|].
    intros Ha. rewrite (IH Ha). reflexivity.
Qed.

Lemma contains_app_sep (a rest : string) (c : ascii) :
  contains (a +:+ String c rest) c = true.
Proof.
  induction a as [|d a IH]; simpl.
  - rewrite Ascii.eqb_refl. reflexivity.
  - rewrite IH. apply orb_true_r.
Qed.

(** A value with a separator splits into at least two pieces. *)
Lemma Split_with_sep (v : string) (c : ascii) :
  contains v c = true -> exists k w pieces, Split v c = k :: w :: pieces.
Proof.
  induction v as [|d rest IH]; simpl; [discriminate|].
  destruct (Ascii.eqb d c); simpl.
  - intros _. destruct rest as [|e rest]; simpl.
    + exists EmptyString, EmptyString, []. reflexivity.
    + destruct (Ascii.eqb e c).
      * eexists _, _, _. reflexivity.
      * destruct (Split rest c); eexists _, _, _; reflexivity.
  - intros Hrest. destruct (IH Hrest) as (k & w & pieces & ->).
    eexists _, _, _. reflexivity.
Qed.

(** Trimming a byte off both ends neither removes nor adds any other
    byte. *)
Lemma contains_TrimLeft (v : string) (c cut : ascii) :
  Ascii.eqb cut c = false -> contains (TrimLeft v cut) c = contains v c.
Proof.
  intros Hc. induction v as [|d rest IH]; simpl; [reflexivity|].
  destruct (Ascii.eqb d cut) eqn:Hd; [|reflexivity].
  apply Ascii.eqb_eq in Hd. subst d. rewrite Hc, IH. reflexivity.
Qed.

Lemma contains_TrimRight (v : string) (c cut : ascii) :
  Ascii.eqb cut c = false -> contains (TrimRight v cut) c = contains v c.
Proof.
  intros Hc. induction v as [|d rest IH]; simpl; [reflexivity|].
  destruct (TrimRight rest cut) as [|e kept] eqn:Hkept.
  - simpl in IH. rewrite <- IH, orb_false_r.
    destruct (Ascii.eqb d cut) eqn:Hd; simpl; [|apply orb_false_r].
    apply Ascii.eqb_eq in Hd. subst d. symmetry. exact Hc.
  - rewrite <- IH. reflexivity.
Qed.

Lemma contains_Trim (v : string) (c cut : ascii) :
  Ascii.eqb cut c = false -> contains (Trim v cut) c = contains v c.
Proof.
  intros Hc. unfold Trim.
  rewrite (contains_TrimRight _ _ _ Hc). apply contains_TrimLeft, Hc.
Qed.

Lemma metadata_pair_without_sep (v : string) :
  contains v colon = false -> metadata_pair v = Panic (IndexOutOfRange 1 1).
Proof.
  intros Hv. unfold metadata_pair. rewrite (Split_without_sep _ _ Hv).
  reflexivity.
Qed.

Lemma metadata_pair_with_sep (v : string) :
  contains v colon = true -> exists key value, metadata_pair v = Ok (key, value).
Proof.
  intros Hv. destruct (Split_with_sep _ _ Hv) as (k & w & pieces & Hs).
  unfold metadata_pair. rewrite Hs. eexists _, _. reflexivity.
Qed.

(** The library functions on the inputs the Go documentation and a run of
    the Go program give. *)
Example Split_examples :
  Split "a:b:c" colon = ["a"; "b"; "c"] /\
  Split "abc" colon = ["abc"] /\
  Split "" colon = [""] /\
  Split "a:" colon = ["a"; ""].
Proof. repeat split. Qed.

Example Trim_examples :
  Trim "  a b  " space = "a b" /\
  Trim "   " space = "" /\
  Trim (String "009" "a ") space = String "009" "a".
Proof. repeat split. Qed.

Example Atoi_examples :
  Atoi "12" = Some 12 /\ Atoi "-12" = Some (-12) /\ Atoi "+07" = Some 7 /\
  Atoi "" = None /\ Atoi "+" = None /\ Atoi "abc" = None /\
  Atoi "1_0" = None /\ Atoi " 5" = None /\
  Atoi "9223372036854775807" = Some 9223372036854775807 /\
  Atoi "9223372036854775808" = None /\
  Atoi "-9223372036854775808" = Some (-9223372036854775808).
Proof. repeat split. Qed.

(** ** Facts about the loop *)

Lemma loop_app (pre post : list Token) (st : locals) :
  loop (pre ++ post) st = st' ← loop pre st; loop post st'.
Proof.
  revert st. induction pre as [|tok pre IH]; intros st; simpl; [reflexivity|].
  destruct (step st tok) as [st'|e]; simpl; [apply IH | reflexivity].
Qed.

Lemma loop_app_Ok (pre post : list Token) (st st2 : locals) :
  loop (pre ++ post) st = Ok st2 ->
  exists st1, loop pre st = Ok st1 /\ loop post st1 = Ok st2.
Proof.
  rewrite loop_app. destruct (loop pre st) as [st1|e]; simpl; [|discriminate].
  intros H. exists st1. split; [reflexivity | exact H].
Qed.

Lemma step_METADATA (st : locals) (tok : Token) :
  Name tok = "METADATA" ->
  step st tok =
    '(key, value) ← metadata_pair (Value tok); Ok (store_metadata key value st).
Proof. intros H. unfold step. rewrite H. reflexivity. Qed.

Lemma step_NOTE (st : locals) (tok : Token) :
  Name tok = "NOTE" -> step st tok = Ok (store_note (Value tok) st).
Proof. intros H. unfold step. rewrite H. reflexivity. Qed.

Lemma step_LOAD (st : locals) (tok : Token) :
  Name tok = "LOAD" ->
  step st tok = Ok (load_case tok st).
Proof. intros H. unfold step. rewrite H. reflexivity. Qed.

Lemma step_movement (st : locals) (tok : Token) :
  is_movement tok = true -> step st tok = Ok (movement_case tok st).
Proof.
  unfold is_movement. intros H. unfold step.
  destruct (orb_prop _ _ H) as [Hn | Hn]; apply String.eqb_eq in Hn;
    rewrite Hn; reflexivity.
Qed.

(** Every token but a METADATA token is processed without a panic. *)
Lemma step_other_Ok (st : locals) (tok : Token) :
  String.eqb (Name tok) "METADATA" = false -> exists st', step st tok = Ok st'.
Proof.
  intros H. unfold step. rewrite H.
  repeat match goal with
         | |- context [if ?b then _ else _] => destruct b
         end; eexists; reflexivity.
Qed.

Lemma step_processable (st : locals) (tok : Token) :
  processable tok = true -> exists st', step st tok = Ok st'.
Proof.
  unfold processable. intros H.
  destruct (String.eqb (Name tok) "METADATA") eqn:Hn.
  - simpl in H. apply String.eqb_eq in Hn. rewrite (step_METADATA _ _ Hn).
    destruct (metadata_pair_with_sep _ H) as (key & value & ->).
    eexists. reflexivity.
  - apply step_other_Ok, Hn.
Qed.

(** The loop runs to its end on processable tokens. *)
Lemma loop_total (tokens : list Token) (st : locals) :
  forallb processable tokens = true -> exists st', loop tokens st = Ok st'.
Proof.
  revert st. induction tokens as [|tok rest IH]; intros st; simpl.
  - intros _. exists st. reflexivity.
  - intros H. apply andb_prop in H as [Htok Hrest].
    destruct (step_processable st tok Htok) as [st1 ->]. simpl.
    apply IH, Hrest.
Qed.

Lemma step_unprocessable (st : locals) (tok : Token) :
  processable tok = false -> step st tok = Panic (IndexOutOfRange 1 1).
Proof.
  unfold processable. intros H. apply orb_false_elim in H as [Hn Hv].
  apply negb_false_iff, String.eqb_eq in Hn.
  rewrite (step_METADATA _ _ Hn), (metadata_pair_without_sep _ Hv). reflexivity.
Qed.

(** The loop runs to its end exactly on the token lists in which every
    METADATA value has a colon, whatever the state it starts from. *)
Lemma loop_Ok_iff (tokens : list Token) (st : locals) :
  (exists st', loop tokens st = Ok st') <-> forallb processable tokens = true.
Proof.
  split; [|apply loop_total].
  revert st. induction tokens as [|tok rest IH]; intros st; simpl; [reflexivity|].
  intros [st' H]. destruct (processable tok) eqn:Htok; simpl.
  - destruct (step st tok) as [st1|e]; simpl in H; [|discriminate].
    apply (IH st1). exists st'. exact H.
  - rewrite (step_unprocessable _ _ Htok) in H. discriminate.
Qed.

(** A METADATA token without a colon stops the loop with a panic. *)
Lemma step_bare_metadata (st : locals) (tok : Token) :
  Name tok = "METADATA" -> contains (Value tok) colon = false ->
  step st tok = Panic (IndexOutOfRange 1 1).
Proof.
  intros Hn Hv. rewrite (step_METADATA _ _ Hn).
  rewrite (metadata_pair_without_sep _ Hv). reflexivity.
Qed.

(** C1: a token list containing a METADATA token whose value has no
    separator is not handled as a recoverable diagnostic: [parse] does
    not return at all, it ends in a panic (the index expression [pair[1]]
    on a one-element slice), whatever tokens come before or after. *)
Theorem parse_panics_on_bare_metadata (pre post : list Token) (tok : Token) :
  Name tok = "METADATA" -> contains (Value tok) colon = false ->
  exists e, parse (pre ++ tok :: post) = Panic e.
Proof.
  intros Hn Hv. unfold parse. rewrite loop_app.
  destruct (loop pre init) as [st1|e]; simpl.
  - rewrite (step_bare_metadata _ _ Hn Hv). simpl. eexists. reflexivity.
  - eexists. reflexivity.
Qed.

(** C4: [parse] does fail outright on some token lists: in a log that is
    valid but for one METADATA line without a separator, that line aborts
    the whole parse with a panic, and no Session is returned. *)
Theorem parse_aborts_on_one_bad_line :
  parse [ {| Name := "MOVEMENT"; Value := "Squat" |};
          {| Name := "METADATA"; Value := "tempo 3010" |};
          {| Name := "LOAD"; Value := "100" |};
          {| Name := "REPS"; Value := "5" |} ]
  = Panic (IndexOutOfRange 1 1).
Proof. reflexivity. Qed.

(** *** Integer tokens *)

Lemma int_case_failed (t : string) (assign : Z -> Performance.t -> Performance.t)
    (tok : Token) (st : locals) :
  Atoi (Value tok) = None ->
  int_case t assign tok st = after_failed_int t assign tok st.
Proof.
  intros H. unfold int_case, intValue, after_failed_int. rewrite H. reflexivity.
Qed.

(** What [after_failed_int] leaves behind, field by field. *)
Lemma after_failed_int_reads (t : string) (tok : Token) (st : locals) :
  Performance.Fails (p (after_failed_int t Performance.set_Fails tok st)) = 0 /\
  Performance.Reps (p (after_failed_int t Performance.set_Reps tok st)) = 0 /\
  Performance.Sets (p (after_failed_int t Performance.set_Sets tok st)) = 0 /\
  forall assign,
    Session.Errors (s (after_failed_int t assign tok st))
    = Session.Errors (s st) ++ [FailedToParseValue t (Value tok)] /\
    m (after_failed_int t assign tok st) = m st /\
    inSession (after_failed_int t assign tok st) = inSession st /\
    inPerformance (after_failed_int t assign tok st) = inPerformance st.
Proof. repeat split. Qed.

(** C2 (amended): a FAILS, REPS or SETS token whose value is not an integer
    is processed without failure; the state it leaves has one more
    diagnostic at the end of the session's error list, naming the field
    and the value, and has [0] in the corresponding field of the current
    Performance, whatever the field held before.  The two other integer
    fields and everything else keep their values, and the loop goes on
    with the following tokens from that state. *)
Theorem failed_int_token_assigns_zero (st : locals) (tok : Token) (rest : list Token) :
  Atoi (Value tok) = None ->
  (Name tok = "FAILS" ->
     exists st',
       step st tok = Ok st' /\ loop (tok :: rest) st = loop rest st' /\
       Session.Errors (s st')
       = Session.Errors (s st) ++ [FailedToParseValue "fails" (Value tok)] /\
       Performance.Fails (p st') = 0 /\
       Performance.Reps (p st') = Performance.Reps (p st) /\
       Performance.Sets (p st') = Performance.Sets (p st) /\
       int_token_frame st st') /\
  (Name tok = "REPS" ->
     exists st',
       step st tok = Ok st' /\ loop (tok :: rest) st = loop rest st' /\
       Session.Errors (s st')
       = Session.Errors (s st) ++ [FailedToParseValue "reps" (Value tok)] /\
       Performance.Reps (p st') = 0 /\
       Performance.Fails (p st') = Performance.Fails (p st) /\
       Performance.Sets (p st') = Performance.Sets (p st) /\
       int_token_frame st st') /\
  (Name tok = "SETS" ->
     exists st',
       step st tok = Ok st' /\ loop (tok :: rest) st = loop rest st' /\
       Session.Errors (s st')
       = Session.Errors (s st) ++ [FailedToParseValue "sets" (Value tok)] /\
       Performance.Sets (p st') = 0 /\
       Performance.Fails (p st') = Performance.Fails (p st) /\
       Performance.Reps (p st') = Performance.Reps (p st) /\
       int_token_frame st st').
Proof.
  intros Hv.
  assert (Hstep : forall t assign,
            step st tok = Ok (int_case t assign tok st) ->
            step st tok = Ok (after_failed_int t assign tok st) /\
            loop (tok :: rest) st = loop rest (after_failed_int t assign tok st)).
  { intros t assign H. rewrite (int_case_failed _ _ _ _ Hv) in H.
    split; [exact H|]. simpl. rewrite H. reflexivity. }
  split; [|split]; intros Hn.
  - exists (after_failed_int "fails" Performance.set_Fails tok st).
    destruct (Hstep "fails" Performance.set_Fails) as (H1 & H2);
      [unfold step; rewrite Hn; reflexivity|].
    split; [exact H1|]. split; [exact H2|]. repeat split.
  - exists (after_failed_int "reps" Performance.set_Reps tok st).
    destruct (Hstep "reps" Performance.set_Reps) as (H1 & H2);
      [unfold step; rewrite Hn; reflexivity|].
    split; [exact H1|]. split; [exact H2|]. repeat split.
  - exists (after_failed_int "sets" Performance.set_Sets tok st).
    destruct (Hstep "sets" Performance.set_Sets) as (H1 & H2);
      [unfold step; rewrite Hn; reflexivity|].
    split; [exact H1|]. split; [exact H2|]. repeat split.
Qed.

(** *** Routing of METADATA and NOTE payloads *)

Lemma store_note_target (v : string) (st : locals) :
  notes_of (scope_of_flags st) (store_note v st)
  = notes_of (scope_of_flags st) st ++ [v].
Proof.
  unfold scope_of_flags, store_note.
  destruct (inSession st); [reflexivity|].
  destruct (inPerformance st); reflexivity.
Qed.

Lemma store_note_elsewhere (v : string) (st : locals) (sc : scope) :
  sc <> scope_of_flags st -> notes_of sc (store_note v st) = notes_of sc st.
Proof.
  unfold scope_of_flags, store_note.
  destruct (inSession st); [|destruct (inPerformance st)];
    destruct sc; intros Hsc; try reflexivity; contradiction.
Qed.

Lemma store_note_metadata (v : string) (st : locals) (sc : scope) :
  metadata_of sc (store_note v st) = metadata_of sc st.
Proof.
  unfold store_note.
  destruct (inSession st); [|destruct (inPerformance st)];
    destruct sc; reflexivity.
Qed.

Lemma store_metadata_target (key value : string) (st : locals) :
  metadata_of (scope_of_flags st) (store_metadata key value st)
  = <[key := value]> (metadata_of (scope_of_flags st) st).
Proof.
  unfold scope_of_flags, store_metadata.
  destruct (inSession st); [reflexivity|].
  destruct (inPerformance st); reflexivity.
Qed.

Lemma store_metadata_elsewhere (key value : string) (st : locals) (sc : scope) :
  sc <> scope_of_flags st ->
  metadata_of sc (store_metadata key value st) = metadata_of sc st.
Proof.
  unfold scope_of_flags, store_metadata.
  destruct (inSession st); [|destruct (inPerformance st)];
    destruct sc; intros Hsc; try reflexivity; contradiction.
Qed.

Lemma store_metadata_notes (key value : string) (st : locals) (sc : scope) :
  notes_of sc (store_metadata key value st) = notes_of sc st.
Proof.
  unfold store_metadata.
  destruct (inSession st); [|destruct (inPerformance st)];
    destruct sc; reflexivity.
Qed.

(** What the METADATA case stores.  The value is split at every
    separator: the key is the text before the first one, the value the
    text between the first and the second one (the rest of the text when
    there is no second one); both have their leading and trailing space
    bytes removed, and the pair is inserted in the metadata of the scope
    the flags name. *)
Lemma metadata_split_at_every_separator (st : locals) (tok : Token)
    (a b rest : string) :
  Name tok = "METADATA" ->
  contains a colon = false ->
  contains b colon = false ->
  Value tok = a +:+ String colon b \/
  Value tok = a +:+ String colon (b +:+ String colon rest) ->
  step st tok = Ok (store_metadata (Trim a space) (Trim b space) st) /\
  metadata_of (scope_of_flags st) (store_metadata (Trim a space) (Trim b space) st)
  = <[Trim a space := Trim b space]> (metadata_of (scope_of_flags st) st).
Proof.
  intros Hn Ha Hb Hv. split; [|apply store_metadata_target].
  rewrite (step_METADATA _ _ Hn). unfold metadata_pair.
  destruct Hv as [-> | ->]; rewrite (Split_at_first_sep _ _ _ Ha).
  - rewrite (Split_without_sep _ _ Hb). reflexivity.
  - rewrite (Split_at_first_sep _ _ _ Hb). reflexivity.
Qed.

(** C3: the builder does not split a METADATA value at its first separator
    only.  For every METADATA token whose value has a second separator,
    the value stored under the key is the text between the first and the
    second separator; the remaining text after the first separator, which
    still contains a separator, is never what is stored: everything from
    the second separator on is lost, with no diagnostic. *)
Theorem metadata_value_stops_at_second_separator (st : locals) (tok : Token)
    (a b rest : string) :
  Name tok = "METADATA" ->
  contains a colon = false ->
  contains b colon = false ->
  Value tok = a +:+ String colon (b +:+ String colon rest) ->
  exists st',
    step st tok = Ok st' /\
    Session.Errors (s st') = Session.Errors (s st) /\
    metadata_of (scope_of_flags st) st' !! Trim a space = Some (Trim b space) /\
    metadata_of (scope_of_flags st) st' !! Trim a space
    <> Some (Trim (b +:+ String colon rest) space).
Proof.
  intros Hn Ha Hb Hv.
  destruct (metadata_split_at_every_separator st tok a b rest Hn Ha Hb (or_intror Hv))
    as (Hstep & Hmeta).
  exists (store_metadata (Trim a space) (Trim b space) st).
  split; [exact Hstep|].
  split.
  { unfold store_metadata.
    destruct (inSession st); [|destruct (inPerformance st)]; reflexivity. }
  rewrite Hmeta, lookup_insert_eq. split; [reflexivity|].
  intros [= Heq]. apply (f_equal (fun v => contains v colon)) in Heq.
  rewrite !contains_Trim, Hb, contains_app_sep in Heq by reflexivity.
  discriminate.
Qed.

(** C5: a NOTE token appends its value to the notes of exactly one scope,
    and a METADATA token whose value yields a key/value pair inserts that
    pair in the metadata of exactly one scope: the one the two flags name
    by the priority session, then performance, then movement.  The notes
    and metadata of the two other scopes stay as they were. *)
Theorem payload_routed_by_flags (st : locals) (tok : Token) :
  (Name tok = "NOTE" ->
     exists st', step st tok = Ok st' /\
       notes_of (scope_of_flags st) st'
       = notes_of (scope_of_flags st) st ++ [Value tok] /\
       (forall sc, sc <> scope_of_flags st -> notes_of sc st' = notes_of sc st) /\
       (forall sc, metadata_of sc st' = metadata_of sc st)) /\
  (Name tok = "METADATA" ->
     forall key value, metadata_pair (Value tok) = Ok (key, value) ->
     exists st', step st tok = Ok st' /\
       metadata_of (scope_of_flags st) st'
       = <[key := value]> (metadata_of (scope_of_flags st) st) /\
       (forall sc, sc <> scope_of_flags st -> metadata_of sc st' = metadata_of sc st) /\
       (forall sc, notes_of sc st' = notes_of sc st)).
Proof.
  split.
  - intros Hn. exists (store_note (Value tok) st).
    split; [apply step_NOTE, Hn|]. split; [apply store_note_target|].
    split; [intros sc; apply store_note_elsewhere | intros sc; apply store_note_metadata].
  - intros Hn key value Hpair. exists (store_metadata key value st).
    split; [rewrite (step_METADATA _ _ Hn), Hpair; reflexivity|].
    split; [apply store_metadata_target|].
    split; [intros sc; apply store_metadata_elsewhere
           | intros sc; apply store_metadata_notes].
Qed.

(** *** End of the token stream *)

Lemma list_neq_snoc {A : Type} (l : list A) (x : A) : l <> l ++ [x].
Proof.
  intros H. apply (f_equal length) in H. rewrite length_app in H.
  simpl in H. lia.
Qed.

Lemma snoc_snoc {A : Type} (l : list A) (x y : A) : l ++ [x; y] = (l ++ [x]) ++ [y].
Proof. rewrite <- app_assoc. reflexivity. Qed.

Lemma flush_performance_s (st : locals) : s (flush_performance st) = s st.
Proof. unfold flush_performance. destruct (f32_nonzero _); reflexivity. Qed.

Lemma flush_performance_Name (st : locals) :
  Movement.Name (m (flush_performance st)) = Movement.Name (m st).
Proof. unfold flush_performance. destruct (f32_nonzero _); reflexivity. Qed.

(** C6: when the loop has consumed the whole token list, the current
    Performance is appended to the current Movement if and only if its
    load is non-zero (otherwise nothing changes), and that Movement is then
    appended to the Session's movement list if and only if its name is
    non-empty (otherwise the Session is returned as the loop left it). *)
Theorem end_of_stream_flushes (tokens : list Token) (st : locals) :
  loop tokens init = Ok st ->
  parse tokens = Ok (finish st) /\
  (Movement.Performances (m (flush_performance st))
   = Movement.Performances (m st) ++ [p st]
   <-> f32_nonzero (Performance.Load (p st)) = true) /\
  (flush_performance st = st
   <-> f32_nonzero (Performance.Load (p st)) = false) /\
  (Session.Movements (fst (finish st))
   = Session.Movements (s st) ++ [m (flush_performance st)]
   <-> Movement.Name (m st) <> "") /\
  (fst (finish st) = s st <-> Movement.Name (m st) = "").
Proof.
  intros Hloop. split; [unfold parse; rewrite Hloop; reflexivity|].
  split; [|split].
  - unfold flush_performance.
    destruct (f32_nonzero (Performance.Load (p st))); simpl.
    + split; reflexivity.
    + split; [|discriminate]. intros H. destruct (list_neq_snoc _ _ H).
  - unfold flush_performance.
    destruct (f32_nonzero (Performance.Load (p st))); simpl.
    + split; [|discriminate]. intros H.
      apply (f_equal (fun x => Movement.Performances (m x))) in H. simpl in H.
      symmetry in H. destruct (list_neq_snoc _ _ H).
    + split; reflexivity.
  - unfold finish, flush_movement. simpl.
    rewrite flush_performance_Name.
    destruct (String.eqb_spec (Movement.Name (m st)) "") as [Hname | Hname]; simpl;
      rewrite flush_performance_s.
    + split; split; intros H; try reflexivity; try assumption; try contradiction.
      destruct (list_neq_snoc _ _ H).
    + split; split; intros H; try reflexivity; try assumption; try contradiction.
      apply (f_equal Session.Movements) in H. simpl in H.
      symmetry in H. destruct (list_neq_snoc _ _ H).
Qed.

(** *** LOAD tokens *)

Lemma load_case_open (tok : Token) (st : locals) :
  inPerformance st = true ->
  m (load_case tok st)
  = Movement.set_Performances (Movement.Performances (m st) ++ [p st]) (m st) /\
  p (load_case tok st)
  = Performance.set_Load (fst (floatValue (Value tok) "load")) NewPerformance /\
  inPerformance (load_case tok st) = true.
Proof.
  intros Hopen. unfold load_case. rewrite Hopen.
  unfold floatValue. destruct (ParseFloat32 (Value tok)); simpl; auto.
Qed.

Lemma load_case_any (tok : Token) (st : locals) :
  Performance.Load (p (load_case tok st)) = fst (floatValue (Value tok) "load") /\
  Movement.Name (m (load_case tok st)) = Movement.Name (m st) /\
  inPerformance (load_case tok st) = true.
Proof.
  unfold load_case, floatValue.
  destruct (inPerformance st), (ParseFloat32 (Value tok)); simpl; auto.
Qed.

(** *** Invariants of the loop *)

(** A property kept by every step is kept by the loop. *)
Lemma loop_invariant (I : locals -> Prop) :
  (forall st tok st', I st -> step st tok = Ok st' -> I st') ->
  forall tokens st st', I st -> loop tokens st = Ok st' -> I st'.
Proof.
  intros Hstep tokens. induction tokens as [|tok rest IH]; intros st st' Hst; simpl.
  - intros [= <-]. exact Hst.
  - destruct (step st tok) as [st1|e] eqn:H1; simpl; [|discriminate].
    apply IH. exact (Hstep _ _ _ Hst H1).
Qed.

(** The successful steps, case by case. *)
Lemma step_Ok_inv (st : locals) (tok : Token) (st' : locals) :
  step st tok = Ok st' ->
  st' = date_case tok st \/
  (exists t assign, st' = int_case t assign tok st /\
     (assign = Performance.set_Fails \/ assign = Performance.set_Reps \/
      assign = Performance.set_Sets)) \/
  st' = load_case tok st \/
  (exists key value, st' = store_metadata key value st) \/
  st' = movement_case tok st \/
  st' = store_note (Value tok) st \/
  st' = st.
Proof.
  unfold step. cbv zeta.
  repeat match goal with
         | |- context [if ?b then _ else _] => destruct b
         end;
    try (intros [= <-]; eauto 12; fail).
  destruct (metadata_pair (Value tok)) as [[key value]|e]; simpl; [|discriminate].
  intros [= <-]. eauto 12.
Qed.

(** Once out of session scope, a step stays out of it and leaves the
    Session's metadata and notes alone. *)
Lemma step_out_of_session (st : locals) (tok : Token) (st' : locals) :
  inSession st = false -> step st tok = Ok st' ->
  inSession st' = false /\
  Session.Metadata (s st') = Session.Metadata (s st) /\
  Session.Notes (s st') = Session.Notes (s st).
Proof.
  intros Hout Hstep.
  destruct (step_Ok_inv _ _ _ Hstep)
    as [-> | [(t & assign & -> & _) | [-> | [(key & value & ->) | [-> | [-> | ->]]]]]].
  - unfold date_case. destruct (ParseAny (Value tok)); simpl; auto.
  - unfold int_case, intValue. destruct (Atoi (Value tok)); simpl; auto.
  - unfold load_case, floatValue.
    destruct (inPerformance st), (ParseFloat32 (Value tok)); simpl; auto.
  - unfold store_metadata. rewrite Hout.
    destruct (inPerformance st); simpl; auto.
  - unfold movement_case. simpl.
    repeat match goal with
           | |- context [if ?b then _ else _] => destruct b; simpl
           end; auto.
  - unfold store_note. rewrite Hout.
    destruct (inPerformance st); simpl; auto.
  - auto.
Qed.

Lemma loop_out_of_session (tokens : list Token) (st st' : locals) :
  inSession st = false -> loop tokens st = Ok st' ->
  inSession st' = false /\
  Session.Metadata (s st') = Session.Metadata (s st) /\
  Session.Notes (s st') = Session.Notes (s st).
Proof.
  intros Hout Hloop.
  apply (loop_invariant
           (fun x => inSession x = false /\
                     Session.Metadata (s x) = Session.Metadata (s st) /\
                     Session.Notes (s x) = Session.Notes (s st)))
    with (tokens := tokens) (st := st); auto.
  intros st1 tok st2 (Hout1 & Hmeta & Hnotes) Hstep.
  destruct (step_out_of_session _ _ _ Hout1 Hstep) as (? & -> & ->). auto.
Qed.

Lemma movement_case_session (tok : Token) (st : locals) :
  inSession (movement_case tok st) = false /\
  Session.Metadata (s (movement_case tok st)) = Session.Metadata (s st) /\
  Session.Notes (s (movement_case tok st)) = Session.Notes (s st).
Proof.
  unfold movement_case. simpl.
  repeat match goal with
         | |- context [if ?b then _ else _] => destruct b; simpl
         end; auto.
Qed.

Lemma finish_session (st : locals) :
  Session.Metadata (fst (finish st)) = Session.Metadata (s st) /\
  Session.Notes (fst (finish st)) = Session.Notes (s st).
Proof.
  unfold finish, flush_movement, flush_performance. simpl.
  repeat match goal with
         | |- context [if ?b then _ else _] => destruct b; simpl
         end; auto.
Qed.

(** C8: once a MOVEMENT or MOVEMENT_SS token has been processed,
    [inSession] is false in every later state, and the Session's metadata
    and notes are those it had just before that token: whatever tokens
    [post] follow it, none of their METADATA or NOTE payloads reaches the
    Session, neither in the loop state nor in the Session returned. *)
Theorem session_scope_left_for_good (pre post : list Token) (mv : Token)
    (st0 st2 : locals) :
  is_movement mv = true ->
  loop (pre ++ mv :: post) st0 = Ok st2 ->
  exists st1,
    loop pre st0 = Ok st1 /\
    inSession st2 = false /\
    Session.Metadata (s st2) = Session.Metadata (s st1) /\
    Session.Notes (s st2) = Session.Notes (s st1) /\
    Session.Metadata (fst (finish st2)) = Session.Metadata (s st1) /\
    Session.Notes (fst (finish st2)) = Session.Notes (s st1).
Proof.
  intros Hmv Hloop.
  destruct (loop_app_Ok _ _ _ _ Hloop) as (st1 & Hpre & Hrest).
  exists st1. split; [exact Hpre|].
  simpl in Hrest. rewrite (step_movement _ _ Hmv) in Hrest. simpl in Hrest.
  destruct (movement_case_session mv st1) as (Hout & Hmeta & Hnotes).
  destruct (loop_out_of_session _ _ _ Hout Hrest) as (Hout2 & Hmeta2 & Hnotes2).
  destruct (finish_session st2) as (Hf1 & Hf2).
  rewrite Hf1, Hf2, Hmeta2, Hnotes2, Hmeta, Hnotes. auto.
Qed.

(** *** Fields no token writes *)

Lemma NewPerformance_untouched : performance_untouched NewPerformance.
Proof. repeat split. Qed.

Lemma NewMovement_untouched : movement_untouched NewMovement.
Proof. split; [reflexivity | constructor]. Qed.

Lemma init_untouched : untouched init.
Proof.
  split; [apply NewPerformance_untouched|].
  split; [apply NewMovement_untouched | constructor].
Qed.

Lemma append_performance_untouched (st : locals) :
  untouched st -> untouched (append_performance st).
Proof.
  intros (Hp & (Hseq & Hperfs) & Hs). split; [exact Hp|]. split; [|exact Hs].
  split; [exact Hseq|]. simpl. apply Forall_app. split; [exact Hperfs|].
  constructor; [exact Hp | constructor].
Qed.

Lemma append_movement_untouched (st : locals) :
  untouched st -> untouched (append_movement st).
Proof.
  intros (Hp & Hm & Hs). split; [exact Hp|]. split; [exact Hm|].
  simpl. apply Forall_app. split; [exact Hs|].
  constructor; [exact Hm | constructor].
Qed.

Lemma set_p_untouched (pf : Performance.t) (st : locals) :
  performance_untouched pf -> untouched st -> untouched (set_p pf st).
Proof. intros Hpf (_ & Hm & Hs). split; [exact Hpf|]. split; assumption. Qed.

Lemma set_m_untouched (mv : Movement.t) (st : locals) :
  movement_untouched mv -> untouched st -> untouched (set_m mv st).
Proof. intros Hmv (Hp & _ & Hs). split; [exact Hp|]. split; assumption. Qed.

Lemma step_untouched (st : locals) (tok : Token) (st' : locals) :
  untouched st -> step st tok = Ok st' -> untouched st'.
Proof.
  intros Hst Hstep.
  destruct (step_Ok_inv _ _ _ Hstep)
    as [-> | [(t & assign & -> & Hassign) | [-> | [(key & value & ->) | [-> | [-> | ->]]]]]].
  - destruct Hst as (Hp & Hm & Hs).
    unfold date_case. destruct (ParseAny (Value tok)); repeat split; simpl; auto;
      apply Hp || apply Hm.
  - destruct Hst as (Hp & Hm & Hs).
    unfold int_case, intValue.
    destruct (Atoi (Value tok)), Hassign as [-> | [-> | ->]];
      repeat split; simpl; auto; apply Hp || apply Hm.
  - unfold load_case, floatValue.
    destruct (inPerformance st).
    + apply append_performance_untouched in Hst.
      apply (set_p_untouched NewPerformance) in Hst; [|apply NewPerformance_untouched].
      destruct Hst as (Hp & Hm & Hs).
      destruct (ParseFloat32 (Value tok)); repeat split; simpl; auto; apply Hm.
    + destruct Hst as (Hp & Hm & Hs).
      destruct (ParseFloat32 (Value tok)); repeat split; simpl; auto;
        apply Hp || apply Hm.
  - destruct Hst as (Hp & Hm & Hs).
    unfold store_metadata.
    destruct (inSession st); [|destruct (inPerformance st)];
      repeat split; simpl; auto; apply Hp || apply Hm.
  - unfold movement_case.
    assert (H1 : untouched (if inPerformance (set_inSession false st)
                            then set_p NewPerformance
                                   (append_performance (set_inSession false st))
                            else set_inSession false st)).
    { destruct (inPerformance (set_inSession false st)).
      - apply set_p_untouched; [apply NewPerformance_untouched|].
        apply append_performance_untouched. exact Hst.
      - exact Hst. }
    revert H1. generalize (if inPerformance (set_inSession false st)
                           then set_p NewPerformance
                                  (append_performance (set_inSession false st))
                           else set_inSession false st).
    intros st1 H1. cbv zeta.
    assert (H2 : untouched (if negb (String.eqb (Movement.Name (m (set_inPerformance false st1))) "")
                            then set_m NewMovement
                                   (append_movement (set_inPerformance false st1))
                            else set_inPerformance false st1)).
    { destruct (negb _).
      - apply set_m_untouched; [apply NewMovement_untouched|].
        apply append_movement_untouched. exact H1.
      - exact H1. }
    revert H2. generalize (if negb (String.eqb (Movement.Name (m (set_inPerformance false st1))) "")
                           then set_m NewMovement
                                  (append_movement (set_inPerformance false st1))
                           else set_inPerformance false st1).
    intros st2 (Hp & Hm & Hs).
    destruct (String.eqb (Name tok) "MOVEMENT_SS"); repeat split; simpl; auto;
      apply Hp || apply Hm.
  - destruct Hst as (Hp & Hm & Hs).
    unfold store_note.
    destruct (inSession st); [|destruct (inPerformance st)];
      repeat split; simpl; auto; apply Hp || apply Hm.
  - exact Hst.
Qed.

Lemma finish_untouched (st : locals) :
  untouched st -> Forall movement_untouched (Session.Movements (fst (finish st))).
Proof.
  intros Hst. unfold finish, flush_movement, flush_performance. simpl.
  assert (H1 : untouched (if f32_nonzero (Performance.Load (p st))
                          then append_performance st else st)).
  { destruct (f32_nonzero _); [apply append_performance_untouched|]; exact Hst. }
  revert H1. generalize (if f32_nonzero (Performance.Load (p st))
                         then append_performance st else st).
  intros st1 H1. destruct (negb _).
  - apply append_movement_untouched in H1. apply H1.
  - apply H1.
Qed.

(** C10: in every Session [parse] returns, each Movement has [Sequence]
    [0], and each Performance of each Movement has [Sequence] [0], an
    empty [Unit] and a [PercentOfMax] of [0.0]: the values the constructors
    gave them. *)
Theorem sequence_unit_percent_never_written (tokens : list Token)
    (ss : Session.t) (err : option error) :
  parse tokens = Ok (ss, err) ->
  Forall movement_untouched (Session.Movements ss).
Proof.
  unfold parse. destruct (loop tokens init) as [st|e] eqn:Hloop; simpl; [|discriminate].
  intros [= <- _]. apply finish_untouched.
  exact (loop_invariant untouched step_untouched _ _ _ init_untouched Hloop).
Qed.

(** *** Entry points *)

(** C9: the string entry point returns, on every string, what the byte
    entry point returns on that string's bytes: the same Session and the
    same error, or the same panic, under the same collaborators (the same
    lexer, and the same clock readings for the date fallback). *)
Theorem ParseString_is_ParseByte (txt : string) :
  ParseString txt = ParseByte (list_byte_of_string txt).
Proof. reflexivity. Qed.

(** ** Whole runs *)

(** *** The cases of a step *)

Lemma step_stepped (st : locals) (tok : Token) (st' : locals) :
  step st tok = Ok st' -> stepped st tok st'.
Proof.
  unfold step. cbv zeta.
  destruct (String.eqb (Name tok) "DATE") eqn:H1.
  { intros [= <-]. apply stepped_date, String.eqb_eq, H1. }
  destruct (String.eqb (Name tok) "FAILS") eqn:H2.
  { intros [= <-]. apply stepped_fails, String.eqb_eq, H2. }
  destruct (String.eqb (Name tok) "LOAD") eqn:H3.
  { intros [= <-]. apply stepped_load, String.eqb_eq, H3. }
  destruct (String.eqb (Name tok) "METADATA") eqn:H4.
  { destruct (metadata_pair (Value tok)) as [[key value]|e] eqn:Hpair; simpl;
      [|discriminate].
    intros [= <-]. apply stepped_metadata; [apply String.eqb_eq, H4 | exact Hpair]. }
  destruct (String.eqb (Name tok) "MOVEMENT") eqn:H5.
  { intros [= <-]. apply stepped_movement, String.eqb_eq, H5. }
  destruct (String.eqb (Name tok) "MOVEMENT_SS") eqn:H6.
  { intros [= <-]. apply stepped_movement_ss, String.eqb_eq, H6. }
  simpl.
  destruct (String.eqb (Name tok) "NOTE") eqn:H7.
  { intros [= <-]. apply stepped_note, String.eqb_eq, H7. }
  destruct (String.eqb (Name tok) "REPS") eqn:H8.
  { intros [= <-]. apply stepped_reps, String.eqb_eq, H8. }
  destruct (String.eqb (Name tok) "SETS") eqn:H9.
  { intros [= <-]. apply stepped_sets, String.eqb_eq, H9. }
  intros [= <-]. apply stepped_other.
  unfold recognised, case_names. simpl.
  rewrite H1, H2, H3, H4, H5, H6, H7, H8, H9. reflexivity.
Qed.

Lemma unrecognised_kinds (tok : Token) :
  recognised tok = false ->
  is_date tok = false /\ is_load tok = false /\ is_note tok = false /\
  is_metadata tok = false /\ is_movement tok = false /\
  String.eqb (Name tok) "FAILS" = false /\
  String.eqb (Name tok) "REPS" = false /\
  String.eqb (Name tok) "SETS" = false.
Proof.
  unfold recognised, case_names, is_date, is_load, is_note, is_metadata, is_movement.
  simpl. intros H.
  repeat match type of H with
         | _ || _ = false => apply orb_false_elim in H as [? H]
         end.
  repeat split; try assumption.
  apply orb_false_intro; assumption.
Qed.

(** Rewrites every test on the kind of [tok], from its name [Hn] or from
    its being unrecognised. *)
Ltac kinds Hn :=
  unfold date_fails, diagnostic, pair_of, movement_entry in *;
  unfold is_date, is_load, is_note, is_metadata, is_movement in *;
  first [ rewrite !Hn in *
        | let H := fresh in
          pose proof (unrecognised_kinds _ Hn) as H;
          unfold is_date, is_load, is_note, is_metadata, is_movement in H;
          let K1 := fresh in let K2 := fresh in let K3 := fresh in
          let K4 := fresh in let K5 := fresh in let K6 := fresh in
          let K7 := fresh in let K8 := fresh in
          destruct H as (K1 & K2 & K3 & K4 & K5 & K6 & K7 & K8);
          rewrite ?K1, ?K2, ?K3, ?K4, ?K5, ?K6, ?K7, ?K8 ];
  simpl.

(** A property of the tokens seen so far and the state, kept by every
    step, holds at the end of the loop. *)
Lemma loop_history (I : list Token -> locals -> Prop) :
  (forall seen st tok st',
      I seen st -> step st tok = Ok st' -> I (seen ++ [tok]) st') ->
  forall tokens seen st st',
    I seen st -> loop tokens st = Ok st' -> I (seen ++ tokens) st'.
Proof.
  intros Hstep tokens.
  induction tokens as [|tok rest IH]; intros seen st st' Hst; simpl.
  - intros [= <-]. rewrite app_nil_r. exact Hst.
  - destruct (step st tok) as [st1|e] eqn:H1; simpl; [|discriminate].
    intros Hrest. rewrite (cons_middle tok seen rest), app_assoc.
    apply (IH _ st1); [|exact Hrest]. exact (Hstep _ _ _ _ Hst H1).
Qed.

Lemma parse_Ok_inv (tokens : list Token) (ss : Session.t) (err : option error) :
  parse tokens = Ok (ss, err) ->
  exists st, loop tokens init = Ok st /\ ss = fst (finish st) /\ err = None.
Proof.
  unfold parse. destruct (loop tokens init) as [st|e]; simpl; [|discriminate].
  intros [= <- <-]. exists st. auto.
Qed.

(** *** Tokens of an unknown kind *)

Lemma step_unrecognised (st : locals) (tok : Token) :
  recognised tok = false -> step st tok = Ok st.
Proof.
  intros H. destruct (unrecognised_kinds _ H) as (H1 & H3 & H7 & H4 & H5 & H2 & H8 & H9).
  unfold is_date, is_load, is_note, is_metadata, is_movement in *.
  unfold step. cbv zeta. rewrite H1, H2, H3, H4, H5, H7, H8, H9. reflexivity.
Qed.

Lemma loop_filter_recognised (tokens : list Token) (st : locals) :
  loop (List.filter recognised tokens) st = loop tokens st.
Proof.
  revert st. induction tokens as [|tok rest IH]; intros st; simpl; [reflexivity|].
  destruct (recognised tok) eqn:Htok; simpl.
  - destruct (step st tok) as [st1|e]; simpl; [apply IH | reflexivity].
  - rewrite (step_unrecognised _ _ Htok). simpl. apply IH.
Qed.

(** X1: tokens whose name has no case in the [switch] are skipped: taking
    them out of the token list changes nothing of what [parse] returns,
    Session, diagnostics or panic. *)
Theorem parse_ignores_unrecognised (tokens : list Token) :
  parse (List.filter recognised tokens) = parse tokens.
Proof. unfold parse. rewrite loop_filter_recognised. reflexivity. Qed.

(** *** Diagnostics *)

Lemma step_errors (st : locals) (tok : Token) (st' : locals) :
  step st tok = Ok st' ->
  Session.Errors (s st') = Session.Errors (s st) ++ omap diagnostic [tok].
Proof.
  intros Hstep. simpl.
  destruct (step_stepped _ _ _ Hstep) as [Hn|Hn|Hn|key value Hn Hpair|Hn|Hn|Hn|Hn|Hn|Hn];
    kinds Hn.
  - unfold date_case. destruct (ParseAny (Value tok)); simpl;
      rewrite ?app_nil_r; reflexivity.
  - unfold int_case, intValue. destruct (Atoi (Value tok)); simpl;
      rewrite ?app_nil_r; reflexivity.
  - unfold load_case, floatValue.
    destruct (inPerformance st), (ParseFloat32 (Value tok)); simpl;
      rewrite ?app_nil_r; reflexivity.
  - unfold store_metadata.
    destruct (inSession st); [|destruct (inPerformance st)]; simpl;
      rewrite app_nil_r; reflexivity.
  - unfold movement_case. simpl.
    repeat match goal with
           | |- context [if ?b then _ else _] => destruct b; simpl
           end; rewrite app_nil_r; reflexivity.
  - unfold movement_case. simpl.
    repeat match goal with
           | |- context [if ?b then _ else _] => destruct b; simpl
           end; rewrite app_nil_r; reflexivity.
  - unfold store_note.
    destruct (inSession st); [|destruct (inPerformance st)]; simpl;
      rewrite app_nil_r; reflexivity.
  - unfold int_case, intValue. destruct (Atoi (Value tok)); simpl;
      rewrite ?app_nil_r; reflexivity.
  - unfold int_case, intValue. destruct (Atoi (Value tok)); simpl;
      rewrite ?app_nil_r; reflexivity.
  - rewrite app_nil_r. reflexivity.
Qed.

Lemma loop_errors (tokens : list Token) (st st' : locals) :
  loop tokens st = Ok st' ->
  Session.Errors (s st') = Session.Errors (s st) ++ omap diagnostic tokens.
Proof.
  revert st. induction tokens as [|tok rest IH]; intros st; simpl.
  - intros [= <-]. rewrite app_nil_r. reflexivity.
  - destruct (step st tok) as [st1|e] eqn:H1; simpl; [|discriminate].
    intros Hrest. rewrite (IH _ Hrest), (step_errors _ _ _ H1). simpl.
    destruct (diagnostic tok); simpl; rewrite <- app_assoc; reflexivity.
Qed.

Lemma finish_Errors (st : locals) :
  Session.Errors (fst (finish st)) = Session.Errors (s st).
Proof.
  unfold finish, flush_movement, flush_performance. simpl.
  repeat match goal with
         | |- context [if ?b then _ else _] => destruct b; simpl
         end; reflexivity.
Qed.

(** X2: the error list of the Session [parse] returns holds exactly one
    diagnostic per token whose value its helper rejects (the date
    interpreter for DATE, [intValue] for FAILS, REPS and SETS,
    [floatValue] for LOAD), in token order, and nothing else; the error
    [parse] returns beside the Session is always nil. *)
Theorem errors_are_the_rejected_tokens (tokens : list Token)
    (ss : Session.t) (err : option error) :
  parse tokens = Ok (ss, err) ->
  Session.Errors ss = omap diagnostic tokens /\ err = None.
Proof.
  intros H. destruct (parse_Ok_inv _ _ _ H) as (st & Hloop & -> & ->).
  split; [|reflexivity].
  rewrite finish_Errors, (loop_errors _ _ _ Hloop). reflexivity.
Qed.

(** *** What the entry points return *)

Lemma loop_Panic_iff (tokens : list Token) (st : locals) (e : panic) :
  loop tokens st = Panic e <->
  e = IndexOutOfRange 1 1 /\ forallb processable tokens = false.
Proof.
  revert st. induction tokens as [|tok rest IH]; intros st; simpl.
  - split; [discriminate | intros [_ H]; discriminate].
  - destruct (processable tok) eqn:Htok; simpl.
    + destruct (step_processable st tok Htok) as [st1 ->]. simpl. apply IH.
    + rewrite (step_unprocessable _ _ Htok). simpl.
      split; [intros [= <-]; auto | intros [-> _]; reflexivity].
Qed.

Lemma parse_Panic_iff (tokens : list Token) (e : panic) :
  parse tokens = Panic e <->
  e = IndexOutOfRange 1 1 /\ forallb processable tokens = false.
Proof.
  rewrite <- (loop_Panic_iff tokens init). unfold parse.
  destruct (loop tokens init); simpl; split; congruence.
Qed.

(** X3: [ParseByte] returns a non-nil error exactly when the lexer cannot
    be built (the error is then the lexer's own) or the scan fails (the
    error then wraps the scanner's); the Session beside it is the zero
    Session.  The builder itself never contributes an error. *)
Theorem ParseByte_error_iff (txt : list byte) (ss : Session.t) (err : error) :
  ParseByte txt = Ok (ss, Some err) <->
  ss = Session.zero /\
  (NewLexer = inr err \/
   exists lexer cause,
     NewLexer = inl lexer /\ Scan lexer txt = inr cause /\ err = FailedToParse cause).
Proof.
  unfold ParseByte. destruct NewLexer as [lexer|err0].
  - destruct (Scan lexer txt) as [tokens|cause] eqn:Hscan.
    + assert (Hno : ~ (ss = Session.zero /\
                (inl lexer = inr err \/
                 exists lexer' cause, @inl Lexer error lexer = inl lexer' /\
                   Scan lexer' txt = inr cause /\ err = FailedToParse cause))).
      { intros (_ & [H | (lexer' & cause & [= <-] & H & _)]); [discriminate|].
        rewrite Hscan in H. discriminate. }
      destruct (parse tokens) as [[ss' err']|e] eqn:Hparse; simpl.
      * destruct (parse_Ok_inv _ _ _ Hparse) as (_ & _ & _ & ->).
        split; [discriminate | intros H; destruct (Hno H)].
      * split; [discriminate | intros H; destruct (Hno H)].
    + split.
      * intros [= <- <-]. split; [reflexivity|]. right. eauto.
      * intros (-> & [H | (lexer' & cause' & [= <-] & H & ->)]); [discriminate|].
        rewrite Hscan in H. injection H as <-. reflexivity.
  - split.
    + intros [= <- <-]. auto.
    + intros (-> & [[= ->] | (lexer & cause & H & _)]); [reflexivity | discriminate].
Qed.

(** X4: [ParseString] ends in a panic exactly when the lexer is built, the
    scan succeeds and some METADATA token it delivers has a value without
    a colon; the panic is then the index expression [pair[1]] out of
    range.  On every other input [ParseString] returns. *)
Theorem ParseString_panics_iff (txt : string) (e : panic) :
  ParseString txt = Panic e <->
  e = IndexOutOfRange 1 1 /\
  exists lexer tokens,
    NewLexer = inl lexer /\
    Scan lexer (list_byte_of_string txt) = inl tokens /\
    forallb processable tokens = false.
Proof.
  unfold ParseString. destruct NewLexer as [lexer|err0].
  - destruct (Scan lexer (list_byte_of_string txt)) as [tokens|cause] eqn:Hscan.
    + destruct (parse tokens) as [[ss' err']|e'] eqn:Hparse; simpl.
      * split; [destruct err'; discriminate|].
        intros (-> & lexer' & tokens' & [= <-] & H & Hbad).
        rewrite Hscan in H. injection H as <-.
        assert (Hp : parse tokens = Panic (IndexOutOfRange 1 1))
          by (apply parse_Panic_iff; auto).
        congruence.
      * apply parse_Panic_iff in Hparse as [-> Hbad].
        split; [intros [= <-]; eauto 6 | intros [-> _]; reflexivity].
    + split; [discriminate|].
      intros (_ & lexer' & tokens & [= <-] & H & _).
      rewrite Hscan in H. discriminate.
  - split; [discriminate | intros (_ & lexer & tokens & H & _); discriminate].
Qed.

(** *** Movements, their names and superset flags *)

(** A token that is not a movement token leaves the Session's movement
    list, and the name and superset flag of the current Movement, alone. *)
Lemma step_keeps_entries (st : locals) (tok : Token) (st' : locals) :
  is_movement tok = false -> step st tok = Ok st' ->
  Session.Movements (s st') = Session.Movements (s st) /\
  entry_of (m st') = entry_of (m st).
Proof.
  intros Hkind Hstep.
  destruct (step_stepped _ _ _ Hstep) as [Hn|Hn|Hn|key value Hn Hpair|Hn|Hn|Hn|Hn|Hn|Hn];
    try (kinds Hn; discriminate).
  - unfold date_case. destruct (ParseAny (Value tok)); auto.
  - unfold int_case, intValue. destruct (Atoi (Value tok)); auto.
  - unfold load_case, floatValue.
    destruct (inPerformance st), (ParseFloat32 (Value tok)); auto.
  - unfold store_metadata.
    destruct (inSession st); [|destruct (inPerformance st)]; auto.
  - unfold store_note.
    destruct (inSession st); [|destruct (inPerformance st)]; auto.
  - unfold int_case, intValue. destruct (Atoi (Value tok)); auto.
  - unfold int_case, intValue. destruct (Atoi (Value tok)); auto.
  - auto.
Qed.

(** A movement token flushes the current Movement if it has a name, and
    leaves a current Movement named by the token.  That Movement is marked
    superset by a MOVEMENT_SS token; a MOVEMENT token leaves the flag as it
    finds it, which matters when the unnamed Movement is reused. *)
Lemma movement_case_entries (tok : Token) (st : locals) :
  map entry_of (Session.Movements (s (movement_case tok st)))
  = map entry_of (Session.Movements (s st)) ++ current_entry st /\
  Movement.Name (m (movement_case tok st)) = Value tok /\
  Movement.SuperSet (m (movement_case tok st))
  = String.eqb (Name tok) "MOVEMENT_SS"
    || (negb (nonempty (Movement.Name (m st))) && Movement.SuperSet (m st)).
Proof.
  unfold movement_case, current_entry, nonempty. simpl.
  destruct (inPerformance st); simpl;
    destruct (String.eqb (Movement.Name (m st)) ""); simpl;
    destruct (String.eqb (Name tok) "MOVEMENT_SS"); simpl;
    rewrite ?map_app, ?app_nil_r; auto.
Qed.

Lemma finish_entries (st : locals) :
  map entry_of (Session.Movements (fst (finish st)))
  = map entry_of (Session.Movements (s st)) ++ current_entry st.
Proof.
  unfold finish, flush_movement, flush_performance, current_entry, nonempty. simpl.
  destruct (f32_nonzero (Performance.Load (p st))); simpl;
    destruct (String.eqb (Movement.Name (m st)) ""); simpl;
    rewrite ?map_app, ?app_nil_r; reflexivity.
Qed.

Lemma movement_names_snoc (seen : list Token) (tok : Token) :
  movement_names (seen ++ [tok])
  = movement_names seen
    ++ (if is_movement tok && nonempty (Value tok) then [Value tok] else []).
Proof.
  unfold movement_names. rewrite List.filter_app, map_app, List.filter_app. simpl.
  destruct (is_movement tok); simpl; [|rewrite app_nil_r; reflexivity].
  destruct (nonempty (Value tok)); reflexivity.
Qed.

Lemma loop_names (tokens seen : list Token) (st st' : locals) :
  map fst (map entry_of (Session.Movements (s st)) ++ current_entry st)
  = movement_names seen ->
  loop tokens st = Ok st' ->
  map fst (map entry_of (Session.Movements (s st')) ++ current_entry st')
  = movement_names (seen ++ tokens).
Proof.
  apply (loop_history
           (fun seen st =>
              map fst (map entry_of (Session.Movements (s st)) ++ current_entry st)
              = movement_names seen)).
  clear. intros seen st tok st' Hst Hstep. rewrite movement_names_snoc.
  destruct (is_movement tok) eqn:Hkind; simpl.
  - rewrite (step_movement _ _ Hkind) in Hstep. injection Hstep as <-.
    destruct (movement_case_entries tok st) as (Hs & Hname & _).
    unfold current_entry. rewrite Hname, Hs. fold (current_entry st).
    rewrite <- Hst.
    destruct (nonempty (Value tok)); simpl; rewrite ?map_app; simpl;
      rewrite ?Hname, ?app_nil_r; reflexivity.
  - destruct (step_keeps_entries _ _ _ Hkind Hstep) as (Hs & Hm).
    rewrite app_nil_r, <- Hst, Hs. unfold current_entry.
    injection Hm as Hname Hss. rewrite Hname.
    destruct (nonempty (Movement.Name (m st))); [|reflexivity].
    unfold entry_of. rewrite Hname, Hss. reflexivity.
Qed.

(** X5: the Movements of the Session [parse] returns are named, in order,
    by the non-empty values of the MOVEMENT and MOVEMENT_SS tokens: each
    such token yields one Movement, a movement token with an empty value
    yields none, and no Movement comes from anything else.  In particular a
    token list without movement tokens returns no Movement. *)
Theorem movements_are_the_named_movement_tokens (tokens : list Token)
    (ss : Session.t) (err : option error) :
  parse tokens = Ok (ss, err) ->
  map Movement.Name (Session.Movements ss) = movement_names tokens.
Proof.
  intros H. destruct (parse_Ok_inv _ _ _ H) as (st & Hloop & -> & _).
  pose proof (loop_names tokens [] init st eq_refl Hloop) as Hnames.
  rewrite <- finish_entries, map_map in Hnames. exact Hnames.
Qed.

Lemma movements_named_snoc (seen : list Token) (tok : Token) :
  movements_named (seen ++ [tok]) = true ->
  movements_named seen = true /\
  (is_movement tok = true -> nonempty (Value tok) = true).
Proof.
  unfold movements_named. rewrite forallb_app. simpl. rewrite andb_true_r.
  intros H. apply andb_prop in H as [Hseen Htok]. split; [exact Hseen|].
  intros Hkind. rewrite Hkind in Htok. exact Htok.
Qed.

(** X6: when every movement token carries a non-empty value, the Movements
    of the Session [parse] returns correspond one to one, in order, to the
    movement tokens: each has the token's value as its name and is marked
    superset exactly when the token is a MOVEMENT_SS token. *)
Theorem movements_mirror_movement_tokens (tokens : list Token)
    (ss : Session.t) (err : option error) :
  movements_named tokens = true ->
  parse tokens = Ok (ss, err) ->
  map entry_of (Session.Movements ss)
  = map movement_entry (List.filter is_movement tokens).
Proof.
  intros Hnamed H. destruct (parse_Ok_inv _ _ _ H) as (st & Hloop & -> & _).
  rewrite finish_entries.
  assert (Hinv :
    movements_named ([] ++ tokens) = true ->
    map entry_of (Session.Movements (s st)) ++ current_entry st
    = map movement_entry (List.filter is_movement ([] ++ tokens)) /\
    (nonempty (Movement.Name (m st)) = false -> Movement.SuperSet (m st) = false)).
  { apply (loop_history
             (fun seen st =>
                movements_named seen = true ->
                map entry_of (Session.Movements (s st)) ++ current_entry st
                = map movement_entry (List.filter is_movement seen) /\
                (nonempty (Movement.Name (m st)) = false ->
                 Movement.SuperSet (m st) = false)))
      with (st := init) (tokens := tokens); [|intros _; split; reflexivity | exact Hloop].
    clear. intros seen st tok st' Hst Hstep Hseen.
    destruct (movements_named_snoc _ _ Hseen) as (Hseen' & Htok).
    destruct (Hst Hseen') as (Hentries & Hflag). clear Hst.
    rewrite List.filter_app, map_app. simpl.
    destruct (is_movement tok) eqn:Hkind; simpl.
    - rewrite (step_movement _ _ Hkind) in Hstep. injection Hstep as <-.
      destruct (movement_case_entries tok st) as (Hs & Hname & Hss).
      rewrite Hs, Hentries. unfold current_entry. rewrite Hname, (Htok eq_refl).
      split; [|discriminate].
      unfold entry_of, movement_entry. rewrite Hname, Hss. do 3 f_equal.
      destruct (nonempty (Movement.Name (m st))) eqn:Hcur; simpl.
      + apply orb_false_r.
      + rewrite (Hflag eq_refl). apply orb_false_r.
    - destruct (step_keeps_entries _ _ _ Hkind Hstep) as (Hs & Hm).
      rewrite app_nil_r, <- Hentries, Hs. unfold current_entry.
      injection Hm as Hname Hss. rewrite Hname, Hss. unfold entry_of.
      rewrite Hname, Hss. split; [reflexivity | exact Hflag]. }
  apply Hinv. exact Hnamed.
Qed.

(** *** What reaches the Session's notes and metadata *)

Lemma step_in_session (st : locals) (tok : Token) (st' : locals) :
  is_movement tok = false -> inSession st = true -> step st tok = Ok st' ->
  inSession st' = true /\
  Session.Notes (s st')
  = Session.Notes (s st) ++ (if is_note tok then [Value tok] else []) /\
  Session.Metadata (s st')
  = foldl insert_pair (Session.Metadata (s st)) (omap pair_of [tok]).
Proof.
  intros Hkind Hin Hstep. simpl.
  destruct (step_stepped _ _ _ Hstep) as [Hn|Hn|Hn|key value Hn Hpair|Hn|Hn|Hn|Hn|Hn|Hn];
    try (kinds Hn; discriminate); kinds Hn.
  - unfold date_case. destruct (ParseAny (Value tok)); simpl;
      rewrite app_nil_r; auto.
  - unfold int_case, intValue. destruct (Atoi (Value tok)); simpl;
      rewrite app_nil_r; auto.
  - unfold load_case, floatValue.
    destruct (inPerformance st), (ParseFloat32 (Value tok)); simpl;
      rewrite app_nil_r; auto.
  - rewrite Hpair. unfold store_metadata. rewrite Hin. simpl.
    rewrite app_nil_r. auto.
  - unfold store_note. rewrite Hin. simpl. auto.
  - unfold int_case, intValue. destruct (Atoi (Value tok)); simpl;
      rewrite app_nil_r; auto.
  - unfold int_case, intValue. destruct (Atoi (Value tok)); simpl;
      rewrite app_nil_r; auto.
  - rewrite app_nil_r. auto.
Qed.

Lemma loop_in_session (tokens : list Token) (st st' : locals) :
  forallb (fun tok => negb (is_movement tok)) tokens = true ->
  inSession st = true -> loop tokens st = Ok st' ->
  inSession st' = true /\
  Session.Notes (s st')
  = Session.Notes (s st) ++ map Value (List.filter is_note tokens) /\
  Session.Metadata (s st')
  = foldl insert_pair (Session.Metadata (s st)) (omap pair_of tokens).
Proof.
  revert st. induction tokens as [|tok rest IH]; intros st; simpl.
  - intros _ Hin [= <-]. rewrite app_nil_r. auto.
  - intros Hkinds Hin. apply andb_prop in Hkinds as [Hkind Hrest].
    apply negb_true_iff in Hkind.
    destruct (step st tok) as [st1|e] eqn:H1; simpl; [|discriminate].
    intros Hloop.
    destruct (step_in_session _ _ _ Hkind Hin H1) as (Hin1 & Hnotes1 & Hmeta1).
    destruct (IH st1 Hrest Hin1 Hloop) as (Hin' & Hnotes' & Hmeta').
    split; [exact Hin'|]. split.
    + rewrite Hnotes', Hnotes1, <- app_assoc.
      destruct (is_note tok); reflexivity.
    + rewrite Hmeta', Hmeta1. simpl. destruct (pair_of tok); reflexivity.
Qed.

Lemma session_part_split (tokens : list Token) :
  forallb (fun tok => negb (is_movement tok)) (session_part tokens) = true /\
  (tokens = session_part tokens \/
   exists mv post,
     tokens = session_part tokens ++ mv :: post /\ is_movement mv = true).
Proof.
  induction tokens as [|tok rest (IHkinds & IHsplit)]; simpl; [auto|].
  destruct (is_movement tok) eqn:Hkind; simpl.
  - split; [reflexivity|]. right. exists tok, rest. auto.
  - rewrite Hkind. split; [exact IHkinds|].
    destruct IHsplit as [<- | (mv & post & Hsplit & Hmv)]; [auto|].
    right. exists mv, post. rewrite <- Hsplit. auto.
Qed.

(** The Session's notes and metadata after a whole run from [init]. *)
Lemma session_scope_contents (tokens : list Token) (st : locals) :
  loop tokens init = Ok st ->
  Session.Notes (s st) = map Value (List.filter is_note (session_part tokens)) /\
  Session.Metadata (s st)
  = foldl insert_pair ∅ (omap pair_of (session_part tokens)).
Proof.
  intros Hloop. destruct (session_part_split tokens) as (Hkinds & Hsplit).
  destruct Hsplit as [Hall | (mv & post & Hsplit & Hmv)].
  - rewrite <- Hall in Hkinds |- *.
    destruct (loop_in_session _ init _ Hkinds eq_refl Hloop) as (_ & Hnotes & Hmeta).
    auto.
  - rewrite Hsplit in Hloop.
    destruct (loop_app_Ok _ _ _ _ Hloop) as (st1 & Hpre & Hrest).
    destruct (loop_in_session _ init _ Hkinds eq_refl Hpre) as (_ & Hnotes & Hmeta).
    simpl in Hrest. rewrite (step_movement _ _ Hmv) in Hrest. simpl in Hrest.
    destruct (movement_case_session mv st1) as (Hout & Hmeta1 & Hnotes1).
    destruct (loop_out_of_session _ _ _ Hout Hrest) as (_ & Hmeta2 & Hnotes2).
    rewrite Hnotes2, Hnotes1, Hmeta2, Hmeta1. auto.
Qed.

(** X7: the notes of the Session [parse] returns are the values of the
    NOTE tokens that come before the first movement token, in token order;
    a NOTE token after a movement token never reaches them. *)
Theorem session_notes_precede_first_movement (tokens : list Token)
    (ss : Session.t) (err : option error) :
  parse tokens = Ok (ss, err) ->
  Session.Notes ss = map Value (List.filter is_note (session_part tokens)).
Proof.
  intros H. destruct (parse_Ok_inv _ _ _ H) as (st & Hloop & -> & _).
  destruct (finish_session st) as (_ & ->).
  apply (session_scope_contents _ _ Hloop).
Qed.

Lemma foldl_insert_pair (pairs : list (string * string)) (acc : gmap string string) :
  foldl insert_pair acc pairs = list_to_map (reverse pairs) ∪ acc.
Proof.
  revert acc. induction pairs as [|[key value] pairs IH]; intros acc; simpl.
  - rewrite (left_id_L ∅ (∪)). reflexivity.
  - rewrite IH, reverse_cons, list_to_map_app. simpl.
    unfold insert_pair. simpl.
    rewrite <- (assoc_L (∪)). f_equal.
    rewrite insert_empty, <- insert_union_singleton_l. reflexivity.
Qed.

(** X8: the metadata of the Session [parse] returns is the map of the
    key/value pairs of the METADATA tokens that come before the first
    movement token, a later pair replacing an earlier one with the same
    key; a METADATA token after a movement token never reaches it. *)
Theorem session_metadata_precedes_first_movement (tokens : list Token)
    (ss : Session.t) (err : option error) :
  parse tokens = Ok (ss, err) ->
  Session.Metadata ss
  = list_to_map (reverse (omap pair_of (session_part tokens))).
Proof.
  intros H. destruct (parse_Ok_inv _ _ _ H) as (st & Hloop & -> & _).
  destruct (finish_session st) as (-> & _).
  destruct (session_scope_contents _ _ Hloop) as (_ & ->).
  rewrite foldl_insert_pair. apply (right_id_L ∅ (∪)).
Qed.

(** *** Loads, in token order *)

Lemma step_passive (st : locals) (tok : Token) (st' : locals) :
  is_load tok = false -> is_movement tok = false -> step st tok = Ok st' ->
  Session.Movements (s st') = Session.Movements (s st) /\
  Movement.Performances (m st') = Movement.Performances (m st) /\
  Movement.Name (m st') = Movement.Name (m st) /\
  inPerformance st' = inPerformance st /\
  Performance.Load (p st') = Performance.Load (p st).
Proof.
  intros Hload Hkind Hstep.
  destruct (step_stepped _ _ _ Hstep) as [Hn|Hn|Hn|key value Hn Hpair|Hn|Hn|Hn|Hn|Hn|Hn];
    try (kinds Hn; discriminate).
  - unfold date_case. destruct (ParseAny (Value tok)); auto 10.
  - unfold int_case, intValue. destruct (Atoi (Value tok)); auto 10.
  - unfold store_metadata.
    destruct (inSession st) eqn:?; [|destruct (inPerformance st) eqn:?]; simpl; auto 10.
  - unfold store_note.
    destruct (inSession st) eqn:?; [|destruct (inPerformance st) eqn:?]; simpl; auto 10.
  - unfold int_case, intValue. destruct (Atoi (Value tok)); auto 10.
  - unfold int_case, intValue. destruct (Atoi (Value tok)); auto 10.
  - auto 10.
Qed.

Lemma load_case_loads (tok : Token) (st : locals) :
  Session.Movements (s (load_case tok st)) = Session.Movements (s st) /\
  movement_loads (m (load_case tok st))
  = movement_loads (m st)
    ++ (if inPerformance st then [Performance.Load (p st)] else []) /\
  Movement.Name (m (load_case tok st)) = Movement.Name (m st) /\
  inPerformance (load_case tok st) = true /\
  Performance.Load (p (load_case tok st)) = load_of tok.
Proof.
  unfold load_case, load_of, floatValue, movement_loads.
  destruct (inPerformance st), (ParseFloat32 (Value tok)); simpl;
    rewrite ?map_app, ?app_nil_r; auto 10.
Qed.

Lemma movement_case_loads (tok : Token) (st : locals) :
  session_loads (s (movement_case tok st)) ++ movement_loads (m (movement_case tok st))
  = session_loads (s st) ++ movement_loads (m st)
    ++ (if inPerformance st then [Performance.Load (p st)] else []) /\
  inPerformance (movement_case tok st) = false /\
  Performance.Load (p (movement_case tok st))
  = (if inPerformance st then f32_zero else Performance.Load (p st)) /\
  Movement.Name (m (movement_case tok st)) = Value tok.
Proof.
  unfold movement_case, session_loads, movement_loads. simpl.
  destruct (inPerformance st); simpl;
    destruct (String.eqb (Movement.Name (m st)) ""); simpl;
    destruct (String.eqb (Name tok) "MOVEMENT_SS"); simpl;
    rewrite ?flat_map_app; simpl; rewrite ?map_app, ?app_nil_r; auto 10.
Qed.

Lemma loads_snoc (seen : list Token) (tok : Token) :
  loads (seen ++ [tok]) = loads seen ++ (if is_load tok then [load_of tok] else []).
Proof.
  unfold loads. rewrite List.filter_app, map_app. simpl.
  destruct (is_load tok); reflexivity.
Qed.

Lemma open_load_snoc (seen : list Token) (tok : Token) :
  open_load (seen ++ [tok])
  = (if is_movement tok then None
     else if is_load tok then Some (load_of tok) else open_load seen).
Proof. unfold open_load. rewrite foldl_snoc. reflexivity. Qed.

Lemma last_movement_name_snoc (seen : list Token) (tok : Token) :
  last_movement_name (seen ++ [tok])
  = (if is_movement tok then Value tok else last_movement_name seen).
Proof. unfold last_movement_name. rewrite foldl_snoc. reflexivity. Qed.

Lemma movement_is_no_load (tok : Token) :
  is_movement tok = true -> is_load tok = false.
Proof.
  unfold is_movement, is_load. intros H.
  destruct (orb_prop _ _ H) as [Hn | Hn]; apply String.eqb_eq in Hn;
    rewrite Hn; reflexivity.
Qed.

Lemma step_loads_follow (seen : list Token) (st : locals) (tok : Token) (st' : locals) :
  loads_follow seen st -> step st tok = Ok st' -> loads_follow (seen ++ [tok]) st'.
Proof.
  intros (Hloads & Hopen & Hzero & Hname) Hstep. unfold loads_follow.
  rewrite loads_snoc, open_load_snoc, last_movement_name_snoc.
  destruct (is_movement tok) eqn:Hkind.
  - rewrite (movement_is_no_load _ Hkind), app_nil_r.
    rewrite (step_movement _ _ Hkind) in Hstep. injection Hstep as <-.
    destruct (movement_case_loads tok st) as (Hl & Hin & Hp & Hn).
    rewrite Hin, Hn, app_nil_r, Hl, Hp.
    split; [exact Hloads|]. split; [reflexivity|]. split; [|reflexivity].
    intros _. destruct (inPerformance st); [reflexivity | apply Hzero; reflexivity].
  - destruct (is_load tok) eqn:Hload.
    + apply String.eqb_eq in Hload. rewrite (step_LOAD _ _ Hload) in Hstep.
      injection Hstep as <-.
      destruct (load_case_loads tok st) as (Hs & Hl & Hn & Hin & Hp).
      unfold session_loads in *. rewrite Hs, Hl, Hin, Hn, Hp.
      split; [rewrite <- Hloads, <- !app_assoc; reflexivity|].
      split; [reflexivity|]. split; [discriminate | exact Hname].
    + destruct (step_passive _ _ _ Hload Hkind Hstep) as (Hs & Hperfs & Hn & Hin & Hp).
      unfold session_loads, movement_loads in *.
      rewrite Hs, Hperfs, Hn, Hin, Hp, app_nil_r. auto.
Qed.

Lemma loop_loads_follow (tokens : list Token) (st : locals) :
  loop tokens init = Ok st -> loads_follow tokens st.
Proof.
  intros Hloop.
  apply (loop_history loads_follow step_loads_follow tokens [] init st); [|exact Hloop].
  repeat split.
Qed.

Lemma finish_loads (tokens : list Token) (st : locals) :
  loads_follow tokens st ->
  session_loads (fst (finish st)) `prefix_of` loads tokens /\
  (nonempty (last_movement_name tokens) = true ->
   session_loads (fst (finish st)) = kept_loads tokens).
Proof.
  intros (Hloads & Hopen & Hzero & Hname).
  unfold kept_loads. rewrite Hopen, <- Hname, <- Hloads.
  unfold finish, flush_movement, flush_performance, nonempty, session_loads.
  simpl.
  destruct (inPerformance st) eqn:Hin.
  - destruct (f32_nonzero (Performance.Load (p st))); simpl;
      destruct (String.eqb (Movement.Name (m st)) ""); simpl;
      rewrite ?flat_map_app; simpl; rewrite ?app_nil_r;
      unfold movement_loads; simpl; rewrite ?map_app; simpl.
    + split; [apply prefix_app_r; reflexivity | discriminate].
    + split; [reflexivity | reflexivity].
    + split; [apply prefix_app_r; reflexivity | discriminate].
    + split; [rewrite app_assoc; apply prefix_app_r; reflexivity|].
      intros _. rewrite app_assoc, removelast_last. reflexivity.
  - rewrite (Hzero eq_refl). simpl.
    destruct (String.eqb (Movement.Name (m st)) ""); simpl;
      rewrite ?flat_map_app; simpl; rewrite ?app_nil_r.
    + split; [apply prefix_app_r; reflexivity | discriminate].
    + split; reflexivity.
Qed.

(** X9: reading the Session [parse] returns Movement by Movement and
    Performance by Performance gives the loads of the LOAD tokens in token
    order, up to some point: Performances are never reordered, duplicated
    or invented, only a tail of them can be missing. *)
Theorem session_loads_prefix_of_tokens (tokens : list Token)
    (ss : Session.t) (err : option error) :
  parse tokens = Ok (ss, err) ->
  session_loads ss `prefix_of` loads tokens.
Proof.
  intros H. destruct (parse_Ok_inv _ _ _ H) as (st & Hloop & -> & _).
  apply (finish_loads tokens st), loop_loads_follow, Hloop.
Qed.


(** *** The Session's date *)

Lemma step_keeps_date (st : locals) (tok : Token) (st' : locals) :
  is_date tok = false -> step st tok = Ok st' ->
  Session.Date (s st') = Session.Date (s st) /\ nowCalls st' = nowCalls st.
Proof.
  intros Hkind Hstep.
  destruct (step_stepped _ _ _ Hstep) as [Hn|Hn|Hn|key value Hn Hpair|Hn|Hn|Hn|Hn|Hn|Hn];
    try (kinds Hn; discriminate).
  - unfold int_case, intValue. destruct (Atoi (Value tok)); auto.
  - unfold load_case, floatValue.
    destruct (inPerformance st), (ParseFloat32 (Value tok)); auto.
  - unfold store_metadata.
    destruct (inSession st); [|destruct (inPerformance st)]; auto.
  - unfold movement_case. simpl.
    repeat match goal with
           | |- context [if ?b then _ else _] => destruct b; simpl
           end; auto.
  - unfold movement_case. simpl.
    repeat match goal with
           | |- context [if ?b then _ else _] => destruct b; simpl
           end; auto.
  - unfold store_note.
    destruct (inSession st); [|destruct (inPerformance st)]; auto.
  - unfold int_case, intValue. destruct (Atoi (Value tok)); auto.
  - unfold int_case, intValue. destruct (Atoi (Value tok)); auto.
  - auto.
Qed.

Lemma loop_keeps_date (tokens : list Token) (st st' : locals) :
  forallb (fun tok => negb (is_date tok)) tokens = true ->
  loop tokens st = Ok st' ->
  Session.Date (s st') = Session.Date (s st).
Proof.
  revert st. induction tokens as [|tok rest IH]; intros st; simpl.
  - intros _ [= <-]. reflexivity.
  - intros Hkinds. apply andb_prop in Hkinds as [Hkind Hrest].
    apply negb_true_iff in Hkind.
    destruct (step st tok) as [st1|e] eqn:H1; simpl; [|discriminate].
    intros Hloop. rewrite (IH _ Hrest Hloop).
    apply (step_keeps_date _ _ _ Hkind H1).
Qed.

(** The clock has been read once per rejected DATE token. *)
Lemma loop_nowCalls (tokens : list Token) (st st' : locals) :
  loop tokens st = Ok st' ->
  nowCalls st' = (nowCalls st + length (List.filter date_fails tokens))%nat.
Proof.
  revert st. induction tokens as [|tok rest IH]; intros st; simpl.
  - intros [= <-]. lia.
  - destruct (step st tok) as [st1|e] eqn:H1; simpl; [|discriminate].
    intros Hloop. rewrite (IH _ Hloop).
    unfold date_fails at 2. destruct (is_date tok) eqn:Hkind; simpl.
    + apply String.eqb_eq in Hkind. unfold step in H1. rewrite Hkind in H1.
      simpl in H1. injection H1 as <-. unfold date_case.
      destruct (ParseAny (Value tok)); simpl; lia.
    + destruct (step_keeps_date _ _ _ Hkind H1) as (_ & ->). lia.
Qed.

Lemma finish_Date (st : locals) :
  Session.Date (fst (finish st)) = Session.Date (s st).
Proof.
  unfold finish, flush_movement, flush_performance. simpl.
  repeat match goal with
         | |- context [if ?b then _ else _] => destruct b; simpl
         end; reflexivity.
Qed.

(** X11: the date of the Session [parse] returns is decided by the last
    DATE token alone: the timestamp the date interpreter reads from its
    value, or, when the interpreter rejects it, the clock reading taken at
    that moment (one reading per rejected DATE token so far).  Without any
    DATE token the date stays the zero time; the clock is not read. *)
Theorem date_is_the_last_DATE_token (tokens : list Token)
    (ss : Session.t) (err : option error) :
  parse tokens = Ok (ss, err) ->
  (forallb (fun tok => negb (is_date tok)) tokens = true -> Session.Date ss = 0) /\
  (forall pre tok post,
      tokens = pre ++ tok :: post ->
      is_date tok = true ->
      forallb (fun tok => negb (is_date tok)) post = true ->
      Session.Date ss
      = match ParseAny (Value tok) with
        | inl d => d
        | inr _ => Now (length (List.filter date_fails pre))
        end).
Proof.
  intros H. destruct (parse_Ok_inv _ _ _ H) as (st & Hloop & -> & _).
  rewrite finish_Date. split.
  - intros Hnone. apply (loop_keeps_date _ _ _ Hnone Hloop).
  - intros pre tok post -> Hkind Hpost.
    destruct (loop_app_Ok _ _ _ _ Hloop) as (st1 & Hpre & Hrest).
    simpl in Hrest.
    destruct (step st1 tok) as [st2|e] eqn:H2; simpl in Hrest; [|discriminate].
    rewrite (loop_keeps_date _ _ _ Hpost Hrest).
    pose proof (loop_nowCalls _ _ _ Hpre) as Hcalls. simpl in Hcalls.
    apply String.eqb_eq in Hkind. unfold step in H2. rewrite Hkind in H2.
    simpl in H2. injection H2 as <-. unfold date_case.
    destruct (ParseAny (Value tok)); simpl; [reflexivity|].
    rewrite Hcalls. reflexivity.
Qed.

(** *** A Performance and a Movement from their own tokens *)

Lemma quiet_kinds (tok : Token) :
  quiet tok = true -> is_load tok = false /\ is_movement tok = false.
Proof.
  unfold quiet. intros H. apply andb_prop in H as [H1 H2].
  apply negb_true_iff in H1, H2. auto.
Qed.

(** A quiet token seen with a Performance open, out of session scope. *)
Lemma step_on_performance (st : locals) (tok : Token) (st' : locals) :
  quiet tok = true -> inSession st = false -> inPerformance st = true ->
  step st tok = Ok st' ->
  inSession st' = false /\ inPerformance st' = true /\ m st' = m st /\
  Performance.Load (p st') = Performance.Load (p st) /\
  Performance.Fails (p st') = int_after "FAILS" "fails" (Performance.Fails (p st)) [tok] /\
  Performance.Reps (p st') = int_after "REPS" "reps" (Performance.Reps (p st)) [tok] /\
  Performance.Sets (p st') = int_after "SETS" "sets" (Performance.Sets (p st)) [tok] /\
  Performance.Notes (p st')
  = Performance.Notes (p st) ++ (if is_note tok then [Value tok] else []) /\
  Performance.Metadata (p st')
  = foldl insert_pair (Performance.Metadata (p st)) (omap pair_of [tok]).
Proof.
  intros Hquiet Hout Hopen Hstep. destruct (quiet_kinds _ Hquiet) as (Hload & Hkind).
  unfold int_after. simpl.
  destruct (step_stepped _ _ _ Hstep) as [Hn|Hn|Hn|key value Hn Hpair|Hn|Hn|Hn|Hn|Hn|Hn];
    try (kinds Hn; discriminate); kinds Hn.
  - unfold date_case. destruct (ParseAny (Value tok)); simpl;
      rewrite app_nil_r; auto 10.
  - unfold int_case, intValue. destruct (Atoi (Value tok)); simpl;
      rewrite app_nil_r; auto 10.
  - rewrite Hpair. unfold store_metadata. rewrite Hout, Hopen. simpl.
    rewrite app_nil_r. auto 10.
  - unfold store_note. rewrite Hout, Hopen. simpl. auto 10.
  - unfold int_case, intValue. destruct (Atoi (Value tok)); simpl;
      rewrite app_nil_r; auto 10.
  - unfold int_case, intValue. destruct (Atoi (Value tok)); simpl;
      rewrite app_nil_r; auto 10.
  - rewrite app_nil_r. auto 10.
Qed.

Lemma int_after_cons (name label : string) (start : Z) (tok : Token) (body : list Token) :
  int_after name label start (tok :: body)
  = int_after name label (int_after name label start [tok]) body.
Proof. reflexivity. Qed.

Lemma loop_on_performance (body : list Token) (st st' : locals) :
  forallb quiet body = true -> inSession st = false -> inPerformance st = true ->
  loop body st = Ok st' ->
  inPerformance st' = true /\ m st' = m st /\
  Performance.Load (p st') = Performance.Load (p st) /\
  Performance.Fails (p st') = int_after "FAILS" "fails" (Performance.Fails (p st)) body /\
  Performance.Reps (p st') = int_after "REPS" "reps" (Performance.Reps (p st)) body /\
  Performance.Sets (p st') = int_after "SETS" "sets" (Performance.Sets (p st)) body /\
  Performance.Notes (p st')
  = Performance.Notes (p st) ++ map Value (List.filter is_note body) /\
  Performance.Metadata (p st')
  = foldl insert_pair (Performance.Metadata (p st)) (omap pair_of body).
Proof.
  revert st. induction body as [|tok rest IH]; intros st.
  - simpl. intros _ _ Hopen [= <-]. rewrite app_nil_r. auto 10.
  - intros Hquiet Hout Hopen Hloop. simpl in Hquiet, Hloop.
    apply andb_prop in Hquiet as [Htok Hrest].
    destruct (step st tok) as [st1|e] eqn:H1; simpl in Hloop; [|discriminate].
    destruct (step_on_performance _ _ _ Htok Hout Hopen H1)
      as (Hout1 & Hopen1 & Hm1 & Hl1 & Hf1 & Hr1 & Hs1 & Hn1 & Hd1).
    destruct (IH st1 Hrest Hout1 Hopen1 Hloop)
      as (Hopen' & Hm' & Hl' & Hf' & Hr' & Hs' & Hn' & Hd').
    rewrite !(int_after_cons _ _ _ tok rest), <- Hf1, <- Hr1, <- Hs1.
    rewrite Hm', Hl', Hn', Hd', Hm1, Hl1, Hn1, Hd1.
    repeat split; try assumption.
    + rewrite <- app_assoc. simpl. destruct (is_note tok); reflexivity.
    + simpl. destruct (pair_of tok); reflexivity.
Qed.

(** X12: a Performance is built from its own tokens.  For a LOAD token
    followed by tokens that are neither LOAD nor movement tokens, out of
    session scope: the Performance that stays open has the token's load;
    its fails, reps and sets are what the last FAILS, REPS and SETS token
    after it assigned (a rejected value assigns 0), else what the
    Performance the load went to held (0, 1 and 1 when it is fresh); its
    notes and metadata gain the NOTE values and METADATA pairs that follow,
    in order.  The current Movement only gains the Performance that was
    open before, if any. *)
Theorem performance_built_from_its_tokens (st st' : locals) (tok : Token)
    (body : list Token) :
  is_load tok = true -> forallb quiet body = true -> inSession st = false ->
  loop (tok :: body) st = Ok st' ->
  inPerformance st' = true /\
  m st' = (if inPerformance st
           then Movement.set_Performances
                  (Movement.Performances (m st) ++ [p st]) (m st)
           else m st) /\
  Performance.Load (p st') = load_of tok /\
  Performance.Fails (p st')
  = int_after "FAILS" "fails" (Performance.Fails (load_target st)) body /\
  Performance.Reps (p st')
  = int_after "REPS" "reps" (Performance.Reps (load_target st)) body /\
  Performance.Sets (p st')
  = int_after "SETS" "sets" (Performance.Sets (load_target st)) body /\
  Performance.Notes (p st')
  = Performance.Notes (load_target st) ++ map Value (List.filter is_note body) /\
  Performance.Metadata (p st')
  = list_to_map (reverse (omap pair_of body)) ∪ Performance.Metadata (load_target st).
Proof.
  intros Hload Hquiet Hout Hloop. simpl in Hloop.
  apply String.eqb_eq in Hload. rewrite (step_LOAD _ _ Hload) in Hloop.
  simpl in Hloop.
  assert (Hfirst :
    inSession (load_case tok st) = false /\
    inPerformance (load_case tok st) = true /\
    m (load_case tok st)
    = (if inPerformance st
       then Movement.set_Performances
              (Movement.Performances (m st) ++ [p st]) (m st)
       else m st) /\
    p (load_case tok st) = Performance.set_Load (load_of tok) (load_target st)).
  { unfold load_case, load_of, load_target, floatValue.
    destruct (inPerformance st), (ParseFloat32 (Value tok)); simpl; auto. }
  destruct Hfirst as (Hout1 & Hopen1 & Hm1 & Hp1).
  destruct (loop_on_performance _ _ _ Hquiet Hout1 Hopen1 Hloop)
    as (Hopen' & Hm' & Hl' & Hf' & Hr' & Hs' & Hn' & Hd').
  rewrite Hp1 in Hl', Hf', Hr', Hs', Hn', Hd'. simpl in Hl', Hf', Hr', Hs', Hn', Hd'.
  rewrite Hm', Hm1, Hd', foldl_insert_pair. auto 10.
Qed.

Lemma movement_case_fields (tok : Token) (st : locals) :
  inSession (movement_case tok st) = false /\
  inPerformance (movement_case tok st) = false /\
  Movement.Performances (m (movement_case tok st))
  = (if nonempty (Movement.Name (m st)) then []
     else Movement.Performances (m st) ++ (if inPerformance st then [p st] else [])) /\
  Movement.Notes (m (movement_case tok st))
  = (if nonempty (Movement.Name (m st)) then [] else Movement.Notes (m st)) /\
  Movement.Metadata (m (movement_case tok st))
  = (if nonempty (Movement.Name (m st)) then ∅ else Movement.Metadata (m st)).
Proof.
  unfold movement_case, nonempty. simpl.
  destruct (inPerformance st); simpl;
    destruct (String.eqb (Movement.Name (m st)) ""); simpl;
    destruct (String.eqb (Name tok) "MOVEMENT_SS"); simpl;
    rewrite ?app_nil_r; auto 10.
Qed.

(** A quiet token seen with no Performance open, out of session scope. *)
Lemma step_on_movement (st : locals) (tok : Token) (st' : locals) :
  quiet tok = true -> inSession st = false -> inPerformance st = false ->
  step st tok = Ok st' ->
  inSession st' = false /\ inPerformance st' = false /\
  entry_of (m st') = entry_of (m st) /\
  Movement.Performances (m st') = Movement.Performances (m st) /\
  Movement.Notes (m st')
  = Movement.Notes (m st) ++ (if is_note tok then [Value tok] else []) /\
  Movement.Metadata (m st')
  = foldl insert_pair (Movement.Metadata (m st)) (omap pair_of [tok]).
Proof.
  intros Hquiet Hout Hopen Hstep. destruct (quiet_kinds _ Hquiet) as (Hload & Hkind).
  simpl.
  destruct (step_stepped _ _ _ Hstep) as [Hn|Hn|Hn|key value Hn Hpair|Hn|Hn|Hn|Hn|Hn|Hn];
    try (kinds Hn; discriminate); kinds Hn.
  - unfold date_case. destruct (ParseAny (Value tok)); simpl;
      rewrite app_nil_r; auto 10.
  - unfold int_case, intValue. destruct (Atoi (Value tok)); simpl;
      rewrite app_nil_r; auto 10.
  - rewrite Hpair. unfold store_metadata. rewrite Hout, Hopen. simpl.
    rewrite app_nil_r. auto 10.
  - unfold store_note. rewrite Hout, Hopen. simpl. auto 10.
  - unfold int_case, intValue. destruct (Atoi (Value tok)); simpl;
      rewrite app_nil_r; auto 10.
  - unfold int_case, intValue. destruct (Atoi (Value tok)); simpl;
      rewrite app_nil_r; auto 10.
  - rewrite app_nil_r. auto 10.
Qed.

Lemma loop_on_movement (body : list Token) (st st' : locals) :
  forallb quiet body = true -> inSession st = false -> inPerformance st = false ->
  loop body st = Ok st' ->
  inPerformance st' = false /\
  entry_of (m st') = entry_of (m st) /\
  Movement.Performances (m st') = Movement.Performances (m st) /\
  Movement.Notes (m st')
  = Movement.Notes (m st) ++ map Value (List.filter is_note body) /\
  Movement.Metadata (m st')
  = foldl insert_pair (Movement.Metadata (m st)) (omap pair_of body).
Proof.
  revert st. induction body as [|tok rest IH]; intros st.
  - simpl. intros _ _ Hopen [= <-]. rewrite app_nil_r. auto 10.
  - intros Hquiet Hout Hopen Hloop. simpl in Hquiet, Hloop.
    apply andb_prop in Hquiet as [Htok Hrest].
    destruct (step st tok) as [st1|e] eqn:H1; simpl in Hloop; [|discriminate].
    destruct (step_on_movement _ _ _ Htok Hout Hopen H1)
      as (Hout1 & Hopen1 & He1 & Hp1 & Hn1 & Hd1).
    destruct (IH st1 Hrest Hout1 Hopen1 Hloop) as (Hopen' & He' & Hp' & Hn' & Hd').
    rewrite He', Hp', Hn', Hd', He1, Hp1, Hn1, Hd1.
    repeat split; try assumption.
    + rewrite <- app_assoc. simpl. destruct (is_note tok); reflexivity.
    + simpl. destruct (pair_of tok); reflexivity.
Qed.

(** X13: a Movement is built from its own tokens.  For a movement token
    followed by tokens that are neither LOAD nor movement tokens: the
    current Movement is named by the token and marked superset by a
    MOVEMENT_SS token; its notes and metadata are the NOTE values and
    METADATA pairs that follow, in order, and it has no Performance yet.
    This holds as such when the Movement before it had a name; when it had
    none, that unnamed Movement is the one renamed, and it keeps the
    Performances, notes, metadata and superset flag it already had. *)
Theorem movement_built_from_its_tokens (st st' : locals) (mv : Token)
    (body : list Token) :
  is_movement mv = true -> forallb quiet body = true ->
  loop (mv :: body) st = Ok st' ->
  inPerformance st' = false /\
  Movement.Name (m st') = Value mv /\
  Movement.SuperSet (m st')
  = String.eqb (Name mv) "MOVEMENT_SS"
    || (negb (nonempty (Movement.Name (m st))) && Movement.SuperSet (m st)) /\
  Movement.Performances (m st')
  = (if nonempty (Movement.Name (m st)) then []
     else Movement.Performances (m st) ++ (if inPerformance st then [p st] else [])) /\
  Movement.Notes (m st')
  = (if nonempty (Movement.Name (m st)) then [] else Movement.Notes (m st))
    ++ map Value (List.filter is_note body) /\
  Movement.Metadata (m st')
  = list_to_map (reverse (omap pair_of body))
    ∪ (if nonempty (Movement.Name (m st)) then ∅ else Movement.Metadata (m st)).
Proof.
  intros Hmv Hquiet Hloop. simpl in Hloop.
  rewrite (step_movement _ _ Hmv) in Hloop. simpl in Hloop.
  destruct (movement_case_fields mv st) as (Hout1 & Hopen1 & Hp1 & Hn1 & Hd1).
  destruct (movement_case_entries mv st) as (_ & Hname1 & Hss1).
  destruct (loop_on_movement _ _ _ Hquiet Hout1 Hopen1 Hloop)
    as (Hopen' & He' & Hp' & Hn' & Hd').
  injection He' as Hname' Hss'.
  rewrite Hname', Hss', Hp', Hn', Hd', Hname1, Hss1, Hp1, Hn1, Hd1, foldl_insert_pair.
  auto 10.
Qed.

(** *** The Performance that is not open *)

Lemma step_closed_blank (st : locals) (tok : Token) (st' : locals) :
  (inPerformance st = false -> blank (p st)) ->
  step st tok = Ok st' ->
  inPerformance st' = false -> blank (p st').
Proof.
  intros Hst Hstep.
  destruct (step_stepped _ _ _ Hstep) as [Hn|Hn|Hn|key value Hn Hpair|Hn|Hn|Hn|Hn|Hn|Hn].
  - unfold date_case. destruct (ParseAny (Value tok)); exact Hst.
  - unfold int_case, intValue. destruct (Atoi (Value tok)); exact Hst.
  - unfold load_case, floatValue.
    destruct (inPerformance st), (ParseFloat32 (Value tok)); discriminate.
  - unfold store_metadata.
    destruct (inSession st); [exact Hst|].
    destruct (inPerformance st) eqn:Hopen; simpl; intros H;
      [congruence | apply Hst; reflexivity].
  - unfold movement_case. simpl.
    destruct (inPerformance st) eqn:Hopen; simpl;
      repeat match goal with
             | |- context [if ?b then _ else _] => destruct b; simpl
             end; intros _; try (repeat split; fail); apply Hst; reflexivity.
  - unfold movement_case. simpl.
    destruct (inPerformance st) eqn:Hopen; simpl;
      repeat match goal with
             | |- context [if ?b then _ else _] => destruct b; simpl
             end; intros _; try (repeat split; fail); apply Hst; reflexivity.
  - unfold store_note.
    destruct (inSession st); [exact Hst|].
    destruct (inPerformance st) eqn:Hopen; simpl; intros H;
      [congruence | apply Hst; reflexivity].
  - unfold int_case, intValue. destruct (Atoi (Value tok)); exact Hst.
  - unfold int_case, intValue. destruct (Atoi (Value tok)); exact Hst.
  - exact Hst.
Qed.

(** X14: in every state the loop reaches from [init], the current
    Performance holds no load, no note and no metadata unless a Performance
    is open: NOTE and METADATA payloads never land on a Performance that no
    LOAD token opened, and a Performance that was flushed leaves nothing of
    these behind.  (Its fails, reps and sets are not reset by a movement
    token that finds no Performance open.) *)
Theorem closed_performance_is_blank (tokens : list Token) (st : locals) :
  loop tokens init = Ok st -> inPerformance st = false -> blank (p st).
Proof.
  intros Hloop.
  apply (loop_invariant (fun x => inPerformance x = false -> blank (p x)))
    with (tokens := tokens) (st := init); [|intros _; repeat split | exact Hloop].
  intros st1 tok st2. apply step_closed_blank.
Qed.

(** *** Consecutive LOAD tokens *)

Lemma load_case_performances (tok : Token) (st : locals) :
  m (load_case tok st)
  = Movement.set_Performances (performances_before_load st) (m st) /\
  Session.Movements (s (load_case tok st)) = Session.Movements (s st) /\
  inPerformance (load_case tok st) = true /\
  Performance.Load (p (load_case tok st)) = load_of tok.
Proof.
  unfold load_case, load_of, floatValue, performances_before_load.
  destruct (inPerformance st), (ParseFloat32 (Value tok)); simpl;
    rewrite ?app_nil_r; repeat split; destruct (m st); reflexivity.
Qed.

(** A quiet token seen with a Performance open leaves the current Movement
    and the Session's movement list as they are, and the Performance open
    with its load. *)
Lemma step_quiet_open (st : locals) (tok : Token) (st' : locals) :
  quiet tok = true -> inPerformance st = true -> step st tok = Ok st' ->
  m st' = m st /\ inPerformance st' = true /\
  Session.Movements (s st') = Session.Movements (s st) /\
  Performance.Load (p st') = Performance.Load (p st).
Proof.
  intros Hquiet Hopen Hstep. destruct (quiet_kinds _ Hquiet) as (Hload & Hkind).
  destruct (step_stepped _ _ _ Hstep) as [Hn|Hn|Hn|key value Hn Hpair|Hn|Hn|Hn|Hn|Hn|Hn];
    try (kinds Hn; discriminate).
  - unfold date_case. destruct (ParseAny (Value tok)); auto.
  - unfold int_case, intValue. destruct (Atoi (Value tok)); auto.
  - unfold store_metadata. rewrite Hopen. destruct (inSession st); auto.
  - unfold store_note. rewrite Hopen. destruct (inSession st); auto.
  - unfold int_case, intValue. destruct (Atoi (Value tok)); auto.
  - unfold int_case, intValue. destruct (Atoi (Value tok)); auto.
  - auto.
Qed.

Lemma loop_quiet_open (body : list Token) (st st' : locals) :
  forallb quiet body = true -> inPerformance st = true -> loop body st = Ok st' ->
  m st' = m st /\ inPerformance st' = true /\
  Session.Movements (s st') = Session.Movements (s st) /\
  Performance.Load (p st') = Performance.Load (p st).
Proof.
  revert st. induction body as [|tok rest IH]; intros st; simpl.
  - intros _ Hopen [= <-]. auto.
  - intros Hquiet Hopen. apply andb_prop in Hquiet as [Htok Hrest].
    destruct (step st tok) as [st1|e] eqn:H1; simpl; [|discriminate].
    intros Hloop.
    destruct (step_quiet_open _ _ _ Htok Hopen H1) as (Hm1 & Hopen1 & Hs1 & Hl1).
    destruct (IH st1 Hrest Hopen1 Hloop) as (Hm' & Hopen' & Hs' & Hl').
    rewrite Hm', Hs', Hl', Hm1, Hs1, Hl1. auto.
Qed.

(** A movement token that finds a Performance open appends it to the
    current Movement; that Movement then goes to the Session if it has a
    name, and stays the current one, renamed, if it has none. *)
Lemma movement_case_closes (tok : Token) (st : locals) :
  inPerformance st = true ->
  (nonempty (Movement.Name (m st)) = true ->
     Session.Movements (s (movement_case tok st))
     = Session.Movements (s st)
       ++ [Movement.set_Performances
             (Movement.Performances (m st) ++ [p st]) (m st)]) /\
  (nonempty (Movement.Name (m st)) = false ->
     Session.Movements (s (movement_case tok st)) = Session.Movements (s st) /\
     Movement.Performances (m (movement_case tok st))
     = Movement.Performances (m st) ++ [p st]).
Proof.
  intros Hopen. unfold movement_case, nonempty. simpl. rewrite Hopen. simpl.
  destruct (String.eqb (Movement.Name (m st)) ""); simpl;
    destruct (String.eqb (Name tok) "MOVEMENT_SS"); simpl;
    split; intros H; try discriminate; auto.
Qed.

(** C7 (amended): a LOAD token processed while a Performance is open first
    appends that Performance to the current Movement's list and then
    starts a fresh Performance carrying the new load.  Hence two LOAD
    tokens with no LOAD or movement token between them yield two
    Performances on the same Movement, in token order, whatever other
    tokens stand between and after them: the first is appended by the
    second LOAD token, and the second is appended right behind it by the
    next LOAD token or movement token whatever its load (the Movement then
    going to the Session if it has a name), or by the end of the stream
    if its load is non-zero.  The one exception is a second Performance
    still open at end of stream with a load of zero: it is dropped. *)
Theorem load_closes_open_performance (st : locals) (t1 t2 : Token)
    (mid aft : list Token) :
  is_load t1 = true -> is_load t2 = true ->
  forallb quiet mid = true -> forallb processable mid = true ->
  forallb quiet aft = true -> forallb processable aft = true ->
  (inPerformance st = true ->
     exists st',
       step st t1 = Ok st' /\
       m st' = Movement.set_Performances
                 (Movement.Performances (m st) ++ [p st]) (m st) /\
       p st' = Performance.set_Load (load_of t1) NewPerformance /\
       inPerformance st' = true) /\
  exists st2 first second,
    loop (t1 :: mid ++ t2 :: aft) st = Ok st2 /\
    Performance.Load first = load_of t1 /\
    Performance.Load second = load_of t2 /\
    second = p st2 /\ inPerformance st2 = true /\
    Session.Movements (s st2) = Session.Movements (s st) /\
    m st2 = Movement.set_Performances
              (performances_before_load st ++ [first]) (m st) /\
    (forall t3, is_load t3 = true ->
       exists st3,
         step st2 t3 = Ok st3 /\
         m st3 = Movement.set_Performances
                   (performances_before_load st ++ [first; second]) (m st)) /\
    (forall t3, is_movement t3 = true ->
       exists st3,
         step st2 t3 = Ok st3 /\
         (nonempty (Movement.Name (m st)) = true ->
            Session.Movements (s st3)
            = Session.Movements (s st)
              ++ [Movement.set_Performances
                    (performances_before_load st ++ [first; second]) (m st)]) /\
         (nonempty (Movement.Name (m st)) = false ->
            Movement.Performances (m st3)
            = performances_before_load st ++ [first; second])) /\
    (f32_nonzero (load_of t2) = true ->
       m (flush_performance st2)
       = Movement.set_Performances
           (performances_before_load st ++ [first; second]) (m st) /\
       (nonempty (Movement.Name (m st)) = true ->
          Session.Movements (fst (finish st2))
          = Session.Movements (s st)
            ++ [Movement.set_Performances
                  (performances_before_load st ++ [first; second]) (m st)])) /\
    (f32_nonzero (load_of t2) = false ->
       m (flush_performance st2)
       = Movement.set_Performances
           (performances_before_load st ++ [first]) (m st)).
Proof.
  intros H1 H2 Hmidq Hmidp Haftq Haftp. split.
  - intros Hopen. exists (load_case t1 st).
    apply String.eqb_eq in H1. split; [apply step_LOAD, H1|].
    destruct (load_case_open t1 st Hopen) as (Hm & Hp & Hin). auto.
  - (* the first LOAD token, then [mid] *)
    destruct (load_case_performances t1 st) as (Hm1 & Hs1 & Hopen1 & Hl1).
    destruct (loop_total mid (load_case t1 st) Hmidp) as [sta Hmid].
    destruct (loop_quiet_open _ _ _ Hmidq Hopen1 Hmid) as (Hma & Hopena & Hsa & Hla).
    (* the second LOAD token, then [aft] *)
    destruct (load_case_performances t2 sta) as (Hm2 & Hs2 & Hopen2 & Hl2).
    destruct (loop_total aft (load_case t2 sta) Haftp) as [st2 Haft].
    destruct (loop_quiet_open _ _ _ Haftq Hopen2 Haft) as (Hmb & Hopenb & Hsb & Hlb).
    assert (Hm : m st2 = Movement.set_Performances
                           (performances_before_load st ++ [p sta]) (m st)).
    { rewrite Hmb, Hm2. unfold performances_before_load at 1.
      rewrite Hopena, Hma, Hm1. reflexivity. }
    assert (Hs : Session.Movements (s st2) = Session.Movements (s st)).
    { rewrite Hsb, Hs2, Hsa, Hs1. reflexivity. }
    assert (Hbefore : performances_before_load st2
                      = performances_before_load st ++ [p sta; p st2]).
    { unfold performances_before_load at 1. rewrite Hopenb, Hm. simpl.
      rewrite <- app_assoc. reflexivity. }
    exists st2, (p sta), (p st2).
    split.
    { apply String.eqb_eq in H1, H2. simpl. rewrite (step_LOAD _ _ H1). simpl.
      rewrite loop_app, Hmid. simpl. rewrite (step_LOAD _ _ H2). simpl. exact Haft. }
    split; [rewrite Hla; exact Hl1|].
    split; [rewrite Hlb; exact Hl2|].
    split; [reflexivity|]. split; [exact Hopenb|]. split; [exact Hs|].
    split; [exact Hm|].
    split; [|split; [|split]].
    + intros t3 H3. exists (load_case t3 st2). apply String.eqb_eq in H3.
      split; [apply step_LOAD, H3|].
      destruct (load_case_performances t3 st2) as (Hm3 & _).
      rewrite Hm3, Hbefore, Hm. reflexivity.
    + intros t3 H3. exists (movement_case t3 st2).
      split; [apply step_movement, H3|].
      destruct (movement_case_closes t3 st2 Hopenb) as (Hnamed & Hunnamed).
      unfold performances_before_load in Hbefore. rewrite Hopenb in Hbefore.
      rewrite Hbefore, Hs in Hnamed. rewrite Hbefore in Hunnamed.
      assert (Hname : Movement.Name (m st2) = Movement.Name (m st))
        by (rewrite Hm; reflexivity).
      rewrite Hname in Hnamed, Hunnamed.
      split.
      * intros Hn. rewrite (Hnamed Hn), Hm. reflexivity.
      * intros Hn. apply (Hunnamed Hn).
    + intros Hnz. rewrite <- Hl2, <- Hlb in Hnz.
      unfold performances_before_load in Hbefore. rewrite Hopenb in Hbefore.
      assert (Hflush : m (flush_performance st2)
                       = Movement.set_Performances
                           (performances_before_load st ++ [p sta; p st2]) (m st)).
      { unfold flush_performance. rewrite Hnz. simpl. rewrite Hbefore, Hm.
        reflexivity. }
      split; [exact Hflush|].
      intros Hn. unfold finish, flush_movement. simpl.
      rewrite flush_performance_Name, Hm. simpl.
      unfold nonempty in Hn. rewrite Hn. simpl.
      rewrite flush_performance_s, Hs, Hflush. reflexivity.
    + intros Hz. rewrite <- Hl2, <- Hlb in Hz.
      unfold flush_performance. rewrite Hz. exact Hm.
Qed.

End Builder.

(** ** The theorems at concrete logs

    Each lemma below runs a theorem above on a concrete token list, with
    the collaborators of [Demo]; each counterexample evaluates the builder
    on an input where a statement of the specification does not hold. *)

Abbreviation demo_step := (step Demo.ParseAny Demo.ParseFloat32 Demo.Now).
Abbreviation demo_loop := (loop Demo.ParseAny Demo.ParseFloat32 Demo.Now).
Abbreviation demo_parse := (parse Demo.ParseAny Demo.ParseFloat32 Demo.Now).

(** C1 at a log with a bare METADATA line between two well-formed ones. *)
Lemma parse_panics_on_bare_metadata_witness :
  Name (Demo.tok "METADATA" "tempo 3010") = "METADATA" /\
  contains (Value (Demo.tok "METADATA" "tempo 3010")) colon = false /\
  exists e,
    demo_parse ([Demo.tok "MOVEMENT" "Squat"]
                ++ Demo.tok "METADATA" "tempo 3010" :: [Demo.tok "LOAD" "100"])
    = Panic e.
Proof.
  split; [reflexivity|]. split; [reflexivity|].
  apply (parse_panics_on_bare_metadata Demo.ParseAny Demo.ParseFloat32 Demo.Now
           [Demo.tok "MOVEMENT" "Squat"] [Demo.tok "LOAD" "100"]
           (Demo.tok "METADATA" "tempo 3010")); reflexivity.
Defined.

(** C2 as stated fails: on a fresh Performance, whose [Reps] is the
    constructor's [1], the token REPS abc records its diagnostic and leaves
    [Reps] at [0], not at its prior value. *)
Lemma reps_not_kept_after_failed_parse :
  Performance.Reps (p init) = 1 /\
  exists st',
    demo_step init (Demo.tok "REPS" "abc") = Ok st' /\
    Session.Errors (s st') = [FailedToParseValue "reps" "abc"] /\
    Performance.Reps (p st') = 0 /\
    Performance.Reps (p st') <> Performance.Reps (p init).
Proof.
  split; [reflexivity|]. eexists. split; [reflexivity|].
  split; [reflexivity|]. split; [reflexivity|]. discriminate.
Defined.

(** C2 (amended) at REPS abc followed by SETS 3, from the initial state:
    the diagnostic is recorded, reps is 0, and the SETS token that follows
    is processed. *)
Lemma failed_int_token_assigns_zero_witness :
  Atoi (Value (Demo.tok "REPS" "abc")) = None /\
  exists st' st'',
    demo_step init (Demo.tok "REPS" "abc") = Ok st' /\
    Session.Errors (s st') = [FailedToParseValue "reps" "abc"] /\
    Performance.Reps (p st') = 0 /\
    Performance.Sets (p st') = 1 /\
    demo_loop [Demo.tok "REPS" "abc"; Demo.tok "SETS" "3"] init = Ok st'' /\
    Performance.Reps (p st'') = 0 /\
    Performance.Sets (p st'') = 3.
Proof.
  split; [reflexivity|].
  destruct (proj1 (proj2 (failed_int_token_assigns_zero
                            Demo.ParseAny Demo.ParseFloat32 Demo.Now
                            init (Demo.tok "REPS" "abc") [Demo.tok "SETS" "3"]
                            eq_refl))
              eq_refl)
    as (st' & Hstep & Hloop & Herrors & Hreps & _ & Hsets & _).
  exists st'. eexists.
  split; [exact Hstep|]. split; [exact Herrors|]. split; [exact Hreps|].
  split; [exact Hsets|].
  injection Hstep as <-.
  split; [rewrite Hloop; vm_compute; reflexivity|].
  split; reflexivity.
Defined.

(** C3 at a concrete token: the value of [url: http://x.io] after its
    first separator is [http://x.io], and the builder stores [http]. *)
Lemma metadata_value_cut_at_second_separator :
  exists st',
    demo_step init (Demo.tok "METADATA" "url: http://x.io") = Ok st' /\
    Session.Metadata (s st') !! "url" = Some "http" /\
    Session.Metadata (s st') !! "url" <> Some "http://x.io".
Proof.
  eexists. split; [reflexivity|]. split; [reflexivity|].
  vm_compute. discriminate.
Defined.

(** C3 at the same token: the key [url] gets [http], not [http://x.io]. *)
Lemma metadata_value_stops_at_second_separator_witness :
  Name (Demo.tok "METADATA" "url: http://x.io") = "METADATA" /\
  contains "url" colon = false /\
  contains " http" colon = false /\
  Value (Demo.tok "METADATA" "url: http://x.io")
  = "url" +:+ String colon (" http" +:+ String colon "//x.io") /\
  exists st',
    demo_step init (Demo.tok "METADATA" "url: http://x.io") = Ok st' /\
    Session.Errors (s st') = [] /\
    Session.Metadata (s st') !! "url" = Some "http" /\
    Session.Metadata (s st') !! "url" <> Some "http://x.io".
Proof.
  split; [reflexivity|]. split; [reflexivity|]. split; [reflexivity|].
  split; [reflexivity|].
  exact (metadata_value_stops_at_second_separator
           Demo.ParseAny Demo.ParseFloat32 Demo.Now
           init (Demo.tok "METADATA" "url: http://x.io")
           "url" " http" "//x.io" eq_refl eq_refl eq_refl eq_refl).
Defined.

(** C5 at a NOTE token seen with a Performance open: it lands on the
    Performance. *)
Lemma payload_routed_by_flags_witness :
  scope_of_flags (set_inPerformance true (set_inSession false init)) = PerformanceScope /\
  exists st',
    demo_step (set_inPerformance true (set_inSession false init))
      (Demo.tok "NOTE" "felt heavy") = Ok st' /\
    notes_of PerformanceScope st' = ["felt heavy"] /\
    notes_of SessionScope st' = [] /\
    notes_of MovementScope st' = [].
Proof.
  split; [reflexivity|].
  destruct (proj1 (payload_routed_by_flags
                     Demo.ParseAny Demo.ParseFloat32 Demo.Now
                     (set_inPerformance true (set_inSession false init))
                     (Demo.tok "NOTE" "felt heavy")) eq_refl)
    as (st' & Hstep & Hhere & Helse & _).
  exists st'. split; [exact Hstep|]. split; [exact Hhere|].
  split; [apply (Helse SessionScope) | apply (Helse MovementScope)]; discriminate.
Defined.

(** C6 at [Demo.squat_log]: the open Performance has load 110 and the Movement
    is named, so both are appended. *)
Lemma end_of_stream_flushes_witness :
  exists st,
    demo_loop Demo.squat_log init = Ok st /\
    demo_parse Demo.squat_log = Ok (finish st) /\
    f32_nonzero (Performance.Load (p st)) = true /\
    Movement.Performances (m (flush_performance st))
    = Movement.Performances (m st) ++ [p st] /\
    Session.Movements (fst (finish st))
    = Session.Movements (s st) ++ [m (flush_performance st)].
Proof.
  eexists. split; [vm_compute; reflexivity|].
  match goal with
  | |- demo_parse _ = Ok (finish ?st) /\ _ =>
      destruct (end_of_stream_flushes Demo.ParseAny Demo.ParseFloat32 Demo.Now
                  Demo.squat_log st eq_refl) as (Hparse & Hperf & _ & Hmov & _)
  end.
  split; [exact Hparse|]. split; [reflexivity|].
  split; [apply Hperf; reflexivity | apply Hmov; discriminate].
Defined.

(** C7 as stated fails: two consecutive LOAD tokens, the second with a
    load of zero, leave one Performance on the Movement, not two. *)
Lemma second_load_of_zero_is_dropped :
  exists ss mv pf,
    demo_parse [Demo.tok "MOVEMENT" "Squat"; Demo.tok "LOAD" "100"; Demo.tok "LOAD" "0"]
    = Ok (ss, None) /\
    Session.Movements ss = [mv] /\
    Movement.Name mv = "Squat" /\
    Movement.Performances mv = [pf] /\
    Demo.ParseFloat32 "100" = Some (Performance.Load pf).
Proof.
  eexists _, _, _. split; [vm_compute; reflexivity|].
  split; [reflexivity|]. split; [reflexivity|]. split; reflexivity.
Defined.

(** C7 (amended) at LOAD 100, REPS 5, LOAD 0, REPS 3 on a Movement named
    A, closed by a MOVEMENT token: A goes to the Session with both
    Performances, in token order, the second with its load of zero. *)
Lemma load_closes_open_performance_witness :
  is_load (Demo.tok "LOAD" "100") = true /\
  is_load (Demo.tok "LOAD" "0") = true /\
  forallb quiet [Demo.tok "REPS" "5"] = true /\
  forallb processable [Demo.tok "REPS" "5"] = true /\
  forallb quiet [Demo.tok "REPS" "3"] = true /\
  forallb processable [Demo.tok "REPS" "3"] = true /\
  exists st2 st3 first second,
    demo_loop (Demo.tok "LOAD" "100" :: [Demo.tok "REPS" "5"]
               ++ Demo.tok "LOAD" "0" :: [Demo.tok "REPS" "3"])
      (movement_case (Demo.tok "MOVEMENT" "A") init) = Ok st2 /\
    demo_step st2 (Demo.tok "MOVEMENT" "B") = Ok st3 /\
    Demo.ParseFloat32 "100" = Some (Performance.Load first) /\
    Demo.ParseFloat32 "0" = Some (Performance.Load second) /\
    f32_nonzero (Performance.Load second) = false /\
    Session.Movements (s st3)
    = [Movement.set_Performances [first; second]
         (m (movement_case (Demo.tok "MOVEMENT" "A") init))].
Proof.
  repeat (split; [reflexivity|]).
  destruct (proj2 (load_closes_open_performance
                     Demo.ParseAny Demo.ParseFloat32 Demo.Now
                     (movement_case (Demo.tok "MOVEMENT" "A") init)
                     (Demo.tok "LOAD" "100") (Demo.tok "LOAD" "0")
                     [Demo.tok "REPS" "5"] [Demo.tok "REPS" "3"]
                     eq_refl eq_refl eq_refl eq_refl eq_refl eq_refl))
    as (st2 & first & second & Hloop & Hl1 & Hl2 & _ & _ & _ & _ & _ & Hmov & _).
  destruct (Hmov (Demo.tok "MOVEMENT" "B") eq_refl) as (st3 & Hstep & Hnamed & _).
  exists st2, st3, first, second.
  split; [exact Hloop|]. split; [exact Hstep|].
  split; [rewrite Hl1; reflexivity|].
  split; [rewrite Hl2; reflexivity|].
  split; [rewrite Hl2; reflexivity|].
  exact (Hnamed eq_refl).
Defined.

(** C8 at [Demo.squat_log], split at its MOVEMENT token: the Session keeps the
    note and the metadata line that came before it, and nothing else. *)
Lemma session_scope_left_for_good_witness :
  is_movement (Demo.tok "MOVEMENT" "Squat") = true /\
  exists st2,
    demo_loop (take 2 Demo.squat_log ++ Demo.tok "MOVEMENT" "Squat" :: drop 3 Demo.squat_log) init
    = Ok st2 /\
    inSession st2 = false /\
    Session.Notes (fst (finish st2)) = ["warm-up done"] /\
    Session.Metadata (fst (finish st2)) = {[ "gym" := "home" ]}.
Proof.
  split; [reflexivity|]. eexists. split; [vm_compute; reflexivity|].
  match goal with
  | |- inSession ?st = false /\ _ =>
      destruct (session_scope_left_for_good Demo.ParseAny Demo.ParseFloat32 Demo.Now
                  (take 2 Demo.squat_log) (drop 3 Demo.squat_log)
                  (Demo.tok "MOVEMENT" "Squat") init st eq_refl eq_refl)
        as (st1 & Hpre & Hout & _ & _ & Hmeta & Hnotes)
  end.
  split; [exact Hout|]. injection Hpre as <-.
  split; [rewrite Hnotes | rewrite Hmeta]; reflexivity.
Defined.

(** C10 at [Demo.squat_log]. *)
Lemma sequence_unit_percent_never_written_witness :
  exists ss,
    demo_parse Demo.squat_log = Ok (ss, None) /\
    Forall movement_untouched (Session.Movements ss).
Proof.
  eexists. split; [vm_compute; reflexivity|].
  apply (sequence_unit_percent_never_written Demo.ParseAny Demo.ParseFloat32 Demo.Now
           Demo.squat_log _ None).
  reflexivity.
Defined.

(** The scenario of the specification's testable properties, without its
    DATE line: Squat gets one Performance (load 100, reps 5, sets 3), Bench
    gets one (load 80, reps 1, sets 1) through the end-of-stream flush. *)
Example squat_bench_scenario :
  exists ss squat bench s1 b1,
    demo_parse [ Demo.tok "MOVEMENT" "Squat"; Demo.tok "LOAD" "100";
                 Demo.tok "REPS" "5"; Demo.tok "SETS" "3";
                 Demo.tok "MOVEMENT" "Bench"; Demo.tok "LOAD" "80" ]
    = Ok (ss, None) /\
    Session.Movements ss = [squat; bench] /\ Session.Errors ss = [] /\
    Movement.Name squat = "Squat" /\ Movement.Performances squat = [s1] /\
    Movement.Name bench = "Bench" /\ Movement.Performances bench = [b1] /\
    Demo.ParseFloat32 "100" = Some (Performance.Load s1) /\
    Performance.Reps s1 = 5 /\ Performance.Sets s1 = 3 /\
    Demo.ParseFloat32 "80" = Some (Performance.Load b1) /\
    Performance.Reps b1 = 1 /\ Performance.Sets b1 = 1.
Proof.
  eexists _, _, _, _, _. split; [vm_compute; reflexivity|].
  repeat split.
Qed.

(** ** The theorems on whole runs at a concrete log *)

(** X2 at [Demo.mixed_log]: four rejected values, four diagnostics, in
    token order. *)
Lemma errors_are_the_rejected_tokens_witness :
  exists ss,
    demo_parse Demo.mixed_log = Ok (ss, None) /\
    Session.Errors ss
    = [ FailedToParseDate (External "could not find a date format");
        FailedToParseValue "reps" "five";
        FailedToParseValue "load" "heavy";
        FailedToParseDate (External "could not find a date format") ].
Proof.
  eexists. split; [vm_compute; reflexivity|].
  etransitivity;
    [ apply (errors_are_the_rejected_tokens Demo.ParseAny Demo.ParseFloat32 Demo.Now
               Demo.mixed_log _ None); reflexivity
    | reflexivity ].
Defined.

(** X5 at [Demo.mixed_log]. *)
Lemma movements_are_the_named_movement_tokens_witness :
  exists ss,
    demo_parse Demo.mixed_log = Ok (ss, None) /\
    map Movement.Name (Session.Movements ss) = ["Squat"; "Bench"].
Proof.
  eexists. split; [vm_compute; reflexivity|].
  etransitivity;
    [ apply (movements_are_the_named_movement_tokens
               Demo.ParseAny Demo.ParseFloat32 Demo.Now Demo.mixed_log _ None);
      reflexivity
    | reflexivity ].
Defined.

(** X6 at [Demo.mixed_log]: Squat is a superset, Bench is not. *)
Lemma movements_mirror_movement_tokens_witness :
  movements_named Demo.mixed_log = true /\
  exists ss,
    demo_parse Demo.mixed_log = Ok (ss, None) /\
    map entry_of (Session.Movements ss) = [("Squat", true); ("Bench", false)].
Proof.
  split; [reflexivity|]. eexists. split; [vm_compute; reflexivity|].
  etransitivity;
    [ apply (movements_mirror_movement_tokens
               Demo.ParseAny Demo.ParseFloat32 Demo.Now Demo.mixed_log _ None);
      reflexivity
    | reflexivity ].
Defined.

(** X7 at [Demo.mixed_log]: of its three notes, the Session keeps the one
    before the first movement token. *)
Lemma session_notes_precede_first_movement_witness :
  exists ss,
    demo_parse Demo.mixed_log = Ok (ss, None) /\
    Session.Notes ss = ["deload week"].
Proof.
  eexists. split; [vm_compute; reflexivity|].
  etransitivity;
    [ apply (session_notes_precede_first_movement
               Demo.ParseAny Demo.ParseFloat32 Demo.Now Demo.mixed_log _ None);
      reflexivity
    | reflexivity ].
Defined.

(** X8 at [Demo.mixed_log]: the second [gym] pair replaces the first, and
    the [bar] pair, after the movement token, is not in the Session. *)
Lemma session_metadata_precedes_first_movement_witness :
  exists ss,
    demo_parse Demo.mixed_log = Ok (ss, None) /\
    Session.Metadata ss = {[ "gym" := "club" ]}.
Proof.
  eexists. split; [vm_compute; reflexivity|].
  etransitivity;
    [ apply (session_metadata_precedes_first_movement
               Demo.ParseAny Demo.ParseFloat32 Demo.Now Demo.mixed_log _ None);
      reflexivity
    | vm_compute; reflexivity ].
Defined.

(** X9 at [Demo.mixed_log]. *)
Lemma session_loads_prefix_of_tokens_witness :
  exists ss,
    demo_parse Demo.mixed_log = Ok (ss, None) /\
    session_loads ss `prefix_of` loads Demo.ParseFloat32 Demo.mixed_log.
Proof.
  eexists. split; [vm_compute; reflexivity|].
  apply (session_loads_prefix_of_tokens
           Demo.ParseAny Demo.ParseFloat32 Demo.Now Demo.mixed_log _ None).
  reflexivity.
Defined.


(** X11 at [Demo.mixed_log]: the last DATE token is rejected like the one
    before it, so the date is the second clock reading. *)
Lemma date_is_the_last_DATE_token_witness :
  exists ss,
    demo_parse Demo.mixed_log = Ok (ss, None) /\
    is_date (Demo.tok "DATE" "later") = true /\
    Session.Date ss = Demo.Now 1.
Proof.
  eexists. split; [vm_compute; reflexivity|]. split; [reflexivity|].
  exact (proj2 (date_is_the_last_DATE_token
                  Demo.ParseAny Demo.ParseFloat32 Demo.Now Demo.mixed_log _ None
                  eq_refl)
           (take 13 Demo.mixed_log) (Demo.tok "DATE" "later") (drop 14 Demo.mixed_log)
           eq_refl eq_refl eq_refl).
Defined.

(** X12 at LOAD 100 followed by REPS, NOTE, METADATA and a rejected SETS,
    after a MOVEMENT token. *)
Lemma performance_built_from_its_tokens_witness :
  is_load (Demo.tok "LOAD" "100") = true /\
  exists st',
    demo_loop [ Demo.tok "LOAD" "100"; Demo.tok "REPS" "5"; Demo.tok "NOTE" "slow";
                Demo.tok "METADATA" "rpe: 8"; Demo.tok "SETS" "x" ]
      (movement_case (Demo.tok "MOVEMENT" "Squat") init) = Ok st' /\
    Performance.Fails (p st') = 0 /\
    Performance.Reps (p st') = 5 /\
    Performance.Sets (p st') = 0 /\
    Performance.Notes (p st') = ["slow"].
Proof.
  split; [reflexivity|]. eexists. split; [vm_compute; reflexivity|].
  match goal with
  | |- Performance.Fails (p ?st') = _ /\ _ =>
      destruct (performance_built_from_its_tokens
                  Demo.ParseAny Demo.ParseFloat32 Demo.Now
                  (movement_case (Demo.tok "MOVEMENT" "Squat") init) st'
                  (Demo.tok "LOAD" "100")
                  [ Demo.tok "REPS" "5"; Demo.tok "NOTE" "slow";
                    Demo.tok "METADATA" "rpe: 8"; Demo.tok "SETS" "x" ]
                  eq_refl eq_refl eq_refl eq_refl)
        as (_ & _ & _ & Hfails & Hreps & Hsets & Hnotes & _)
  end.
  split; [exact Hfails|]. split; [exact Hreps|]. split; [exact Hsets | exact Hnotes].
Defined.

(** X13 at MOVEMENT_SS Squat followed by a NOTE and a METADATA token, after
    a Movement named Bench. *)
Lemma movement_built_from_its_tokens_witness :
  is_movement (Demo.tok "MOVEMENT_SS" "Squat") = true /\
  exists st',
    demo_loop [ Demo.tok "MOVEMENT_SS" "Squat"; Demo.tok "NOTE" "belt";
                Demo.tok "METADATA" "bar: safety" ]
      (movement_case (Demo.tok "MOVEMENT" "Bench") init) = Ok st' /\
    Movement.Name (m st') = "Squat" /\
    Movement.SuperSet (m st') = true /\
    Movement.Performances (m st') = [] /\
    Movement.Notes (m st') = ["belt"].
Proof.
  split; [reflexivity|]. eexists. split; [vm_compute; reflexivity|].
  match goal with
  | |- Movement.Name (m ?st') = _ /\ _ =>
      destruct (movement_built_from_its_tokens
                  Demo.ParseAny Demo.ParseFloat32 Demo.Now
                  (movement_case (Demo.tok "MOVEMENT" "Bench") init) st'
                  (Demo.tok "MOVEMENT_SS" "Squat")
                  [ Demo.tok "NOTE" "belt"; Demo.tok "METADATA" "bar: safety" ]
                  eq_refl eq_refl eq_refl)
        as (_ & Hname & Hss & Hperfs & Hnotes & _)
  end.
  split; [exact Hname|]. split; [exact Hss|]. split; [exact Hperfs | exact Hnotes].
Defined.

(** X14 at the start of [Demo.mixed_log], up to its MOVEMENT_SS token. *)
Lemma closed_performance_is_blank_witness :
  exists st,
    demo_loop (take 8 Demo.mixed_log) init = Ok st /\
    inPerformance st = false /\
    blank (p st).
Proof.
  eexists. split; [vm_compute; reflexivity|]. split; [reflexivity|].
  apply (closed_performance_is_blank Demo.ParseAny Demo.ParseFloat32 Demo.Now
           (take 8 Demo.mixed_log)); reflexivity.
Defined.
